(** * CAGED-finder: the fretboard model and the form synthesiser

    A shallow embedding of [cagedfinder/guitar.py]: the classes [String],
    [Note], [Lick] and [Form], and the class method [Form.calculate_form].

    Python integers are [Z], Python [str] is [string], a tuple or a list of
    notes is a [list].  Code that can raise returns a [result]; an exception
    is identified by the name of its class.  The recursion of
    [calculate_form] is bounded by a fuel argument, and the properties show
    how much fuel is enough. *)

From Stdlib Require Import ZArith List String Ascii Bool Lia Sorted Permutation.
From Stdlib Require Import DecimalString DecimalZ.
Import ListNotations.

Local Open Scope string_scope.
Local Open Scope list_scope.
Local Open Scope Z_scope.

(** ** Exceptions and fallible computations *)

Record exn : Type := Raise { exn_class : string }.

Definition IndexError : exn := Raise "IndexError".
Definition KeyError : exn := Raise "KeyError".
Definition ValueError : exn := Raise "ValueError".
Definition StopIteration : exn := Raise "StopIteration".
Definition RuntimeError : exn := Raise "RuntimeError".
Definition AttributeError : exn := Raise "AttributeError".
Definition NoteFormatError : exn := Raise "NoteFormatError".
Definition RangeError : exn := Raise "RangeError".


Definition exn_eqb (a b : exn) : bool :=
  String.eqb (exn_class a) (exn_class b).

Inductive result (A : Type) : Type :=
| Ok (a : A)
| Err (e : exn).

Arguments Ok {A} a.
Arguments Err {A} e.

Definition bind {A B : Type} (m : result A) (k : A -> result B) : result B :=
  match m with
  | Ok a => k a
  | Err e => Err e
  end.

Notation "x <- m ;; k" := (bind m (fun x => k))
  (at level 61, m at next level, right associativity).

Notation "' pat <- m ;; k" := (bind m (fun x => match x with pat => k end))
  (at level 61, pat pattern, m at next level, right associativity).

Definition is_ok {A : Type} (m : result A) : bool :=
  match m with Ok _ => true | Err _ => false end.

(** ** Python sequence primitives *)

Section PySeq.
Context {A : Type}.

(** [seq[i]] on a tuple or list: a negative index counts from the end. *)
Definition py_index (l : list A) (i : Z) : result A :=
  let len := Z.of_nat (List.length l) in
  let j := if i <? 0 then i + len else i in
  if (j <? 0) || (len <=? j) then Err IndexError
  else match nth_error l (Z.to_nat j) with
       | Some a => Ok a
       | None => Err IndexError
       end.

(** [next(x for x in l if p x)] evaluated in a function body. *)
Fixpoint py_next (p : A -> bool) (l : list A) : result A :=
  match l with
  | [] => Err StopIteration
  | x :: t => if p x then Ok x else py_next p t
  end.

(** [tuple(x for x in l if p x)] where the test itself may raise. *)
Fixpoint filterM (p : A -> result bool) (l : list A) : result (list A) :=
  match l with
  | [] => Ok []
  | x :: t =>
      b <- p x ;;
      r <- filterM p t ;;
      Ok (if b then x :: r else r)
  end.

(** [any(p x for x in l)]: stops at the first true test. *)
Fixpoint anyM (p : A -> result bool) (l : list A) : result bool :=
  match l with
  | [] => Ok false
  | x :: t =>
      b <- p x ;;
      if b then Ok true else anyM p t
  end.

(** [min(l, key=k)]: the first element whose key is minimal. *)
Fixpoint min_from (k : A -> Z) (best : A) (l : list A) : A :=
  match l with
  | [] => best
  | x :: t => min_from k (if k x <? k best then x else best) t
  end.

Definition py_min (k : A -> Z) (l : list A) : result A :=
  match l with
  | [] => Err ValueError
  | x :: t => Ok (min_from k x t)
  end.

(** [l.pop()] : the list without its last element, and that element. *)
Fixpoint py_pop (l : list A) : result (list A * A) :=
  match l with
  | [] => Err IndexError
  | [x] => Ok ([], x)
  | x :: t => '(t', last) <- py_pop t ;; Ok (x :: t', last)
  end.
End PySeq.

Fixpoint mapM {A B : Type} (f : A -> result B) (l : list A) : result (list B) :=
  match l with
  | [] => Ok []
  | x :: t =>
      y <- f x ;;
      r <- mapM f t ;;
      Ok (y :: r)
  end.

(** [range(n)] *)
Definition py_range (n : nat) : list Z := map Z.of_nat (seq 0 n).

(** [str(n)] for an integer [n]. *)
Definition py_str (n : Z) : string := NilZero.string_of_int (Z.to_int n).

(** ** The music-theory collaborator: [mingus.core.notes]

    The functions of the mingus library that [guitar.py] imports, with the
    behaviour the library documents: a note name is one of the letters C to
    B followed by sharps and flats, and stands for a pitch class 0 to 11. *)

Module notes.

Definition note_dict (c : ascii) : option Z :=
  if Ascii.eqb c "C" then Some 0
  else if Ascii.eqb c "D" then Some 2
  else if Ascii.eqb c "E" then Some 4
  else if Ascii.eqb c "F" then Some 5
  else if Ascii.eqb c "G" then Some 7
  else if Ascii.eqb c "A" then Some 9
  else if Ascii.eqb c "B" then Some 11
  else None.

Definition is_accidental (c : ascii) : bool :=
  Ascii.eqb c "b" || Ascii.eqb c "#".

(** A letter of [note_dict] followed by any number of [#] and [b];
    [note[0]] raises on the empty string. *)
Definition is_valid_note (note : string) : result bool :=
  match note with
  | EmptyString => Err IndexError
  | String c post =>
      Ok (match note_dict c with
          | Some _ => forallb is_accidental (list_ascii_of_string post)
          | None => false
          end)
  end.

Definition accidentals (post : string) : Z :=
  fold_left (fun val c =>
               if Ascii.eqb c "b" then val - 1
               else if Ascii.eqb c "#" then val + 1
               else val)
            (list_ascii_of_string post) 0.

Definition note_to_int (note : string) : result Z :=
  v <- is_valid_note note ;;
  match note with
  | String c post =>
      match note_dict c with
      | Some base => if v then Ok ((base + accidentals post) mod 12)
                     else Err NoteFormatError
      | None => Err NoteFormatError
      end
  | EmptyString => Err NoteFormatError
  end.

Definition sharps : list string :=
  ["C"; "C#"; "D"; "D#"; "E"; "F"; "F#"; "G"; "G#"; "A"; "A#"; "B"].

Definition flats : list string :=
  ["C"; "Db"; "D"; "Eb"; "E"; "F"; "Gb"; "G"; "Ab"; "A"; "Bb"; "B"].

(** [int_to_note(n)] with the default accidentals, sharps. *)
Definition int_to_note (n : Z) : result string :=
  if (0 <=? n) && (n <? 12)
  then match nth_error sharps (Z.to_nat n) with
       | Some s => Ok s
       | None => Err RangeError
       end
  else Err RangeError.

Definition is_enharmonic (note1 note2 : string) : result bool :=
  a <- note_to_int note1 ;;
  b <- note_to_int note2 ;;
  Ok (a =? b).

End notes.

(** ** The fretboard model

    [Effect] is the opaque performance effect that the tab source attaches to
    a note.  [hash] is Python's built-in [hash] on [str]: an integer for
    every string, about which nothing else is known. *)

Section Guitar.
Context {Effect : Type}.
Variable hash : string -> Z.

(** *** class Note *)

Record Note : Type := mkNote {
  note_string : Z;
  fret : Z;
  name : string;
  effect : option Effect
}.

(** [Note(string, fret, name)]: the effect defaults to [None]. *)
Definition Note_init (s f : Z) (nm : string) : Note := mkNote s f nm None.

(** The string that [__hash__] feeds to [hash]; [__repr__] prints the same. *)
Definition Note_repr (n : Note) : string :=
  (py_str (note_string n) ++ py_str (fret n) ++ name n)%string.

Definition Note_hash (n : Note) : Z := hash (Note_repr n).

Definition Note_eq (a b : Note) : bool := Note_hash a =? Note_hash b.

Definition Note_lt (a b : Note) : bool :=
  (note_string b <? note_string a)
  || ((note_string a =? note_string b) && (fret a <? fret b)).

Definition Note_is_enharmonic (n : Note) (note : string) : result bool :=
  notes.is_enharmonic (name n) note.

Definition get_octave (n : Note) : Note :=
  let f := if 12 <=? fret n then fret n - 12 else fret n + 12 in
  Note_init (note_string n) f (name n).

(** *** class String *)

Definition FRETS : nat := 23.

Record GuitarString : Type := mkString {
  index : Z;
  tuning : string;
  string_notes : list Note
}.

Definition get_note_name (tun : string) (f : Z) : result string :=
  string_value <- notes.note_to_int tun ;;
  notes.int_to_note ((string_value + f) mod 12).

Definition String_init (idx : Z) (tun : string) : result GuitarString :=
  v <- notes.is_valid_note tun ;;
  if negb v then Err ValueError
  else
    ns <- mapM (fun f => nm <- get_note_name tun f ;; Ok (Note_init idx f nm))
               (py_range FRETS) ;;
    Ok (mkString idx tun ns).

(** [string[item]] for an integer [item]: the name of the note there. *)
Definition getitem_int (s : GuitarString) (item : Z) : result string :=
  n <- py_index (string_notes s) item ;;
  Ok (name n).

(** [string[item]] for a note name: the notes of the string that sound
    like it. *)
Definition getitem_name (s : GuitarString) (item : string)
  : result (list Note) :=
  filterM (fun n => Note_is_enharmonic n item) (string_notes s).

Definition get_notes (s : GuitarString) (note_list : list string)
  : result (list Note) :=
  filterM (fun n1 => anyM (fun n2 => Note_is_enharmonic n1 n2) note_list)
          (string_notes s).

(** *** Sets of notes

    A Python [set] of notes decides membership by [__hash__] and [__eq__],
    that is by [Note_eq].  The model keeps a set as the list of its
    members without repetition, in the order of first insertion.  CPython
    iterates a set in the order of its hash table, which the model does
    not know: after [sorted] the two can differ in the relative place of
    notes on the same string and fret.  The properties below speak of
    membership, duplicates and the order by [<] only, which do not depend
    on the order of iteration. *)

Definition set_mem (x : Note) (s : list Note) : bool := existsb (Note_eq x) s.

Definition set_add (s : list Note) (x : Note) : list Note :=
  if set_mem x s then s else s ++ [x].

Definition py_set (l : list Note) : list Note := fold_left set_add l [].

Definition set_union (a b : list Note) : list Note := fold_left set_add b a.

Definition issubset (a b : list Note) : bool :=
  forallb (fun x => set_mem x b) a.

Definition issuperset (a b : list Note) : bool := issubset b a.

(** [sorted]: a stable sort that compares with [<] only. *)
Fixpoint sorted_insert (x : Note) (l : list Note) : list Note :=
  match l with
  | [] => [x]
  | y :: t => if Note_lt y x then y :: sorted_insert x t else x :: y :: t
  end.

Definition py_sorted (l : list Note) : list Note :=
  fold_right sorted_insert [] l.

(** *** class Lick and class Form

    [scale] holds the [__name__] of the scale class, or [None]; [notes] is
    a tuple. *)

Record Form : Type := mkForm {
  notes : list Note;
  start : option Z;
  end_ : option Z;
  key : option string;
  scale : option string;
  forms : string
}.

(** [Lick.__init__] as [Form.__init__] calls it: [start] and [end] stay
    [None], and [self.notes] is made a tuple. *)
Definition Lick_init (notes_list : list Note) : Form :=
  mkForm notes_list None None None None EmptyString.

(** The methods of a Python tuple. *)
Definition tuple_methods : list string := ["count"; "index"].

Definition tuple_getattr (m : string) : result unit :=
  if existsb (String.eqb m) tuple_methods then Ok tt
  else Err AttributeError.

Definition Form_init (notes_list : list Note) (k sc : option string)
           (fs : string) (transpose : bool) : result Form :=
  let self := Lick_init notes_list in
  let self := mkForm (notes self) (start self) (end_ self) k sc fs in
  if transpose then
    (* self.notes.extend(... for note in self.notes.copy() if ...) *)
    _ <- tuple_getattr "extend" ;;
    _ <- tuple_getattr "copy" ;;
    let copies :=
      map get_octave (filter (fun n => negb (fret n =? 11)) (notes self)) in
    Ok (mkForm (notes self ++ copies) (start self) (end_ self) k sc fs)
  else Ok self.

Definition option_string_eqb (a b : option string) : bool :=
  match a, b with
  | Some x, Some y => String.eqb x y
  | None, None => true
  | _, _ => false
  end.

(** Truth value of an optional string: [None] and [''] are false. *)
Definition truthy (a : option string) : bool :=
  match a with
  | Some s => negb (String.eqb s EmptyString)
  | None => false
  end.

(** [Form.__add__] *)
Definition Form_add (self other : Form) : result Form :=
  let note_list :=
    py_sorted (set_union (py_set (notes self)) (py_set (notes other))) in
  if option_string_eqb (key self) (key other) then
    let sc := if option_string_eqb (scale self) (scale other)
              then scale self else None in
    let fs := if truthy (scale self) then (forms self ++ forms other)%string
              else EmptyString in
    Form_init note_list (key self) sc fs false
  else Form_init note_list None None EmptyString false.

Definition Form_radd (self other : Form) : result Form := Form_add self other.

Definition Form_contains (self lick : Form) : bool :=
  issuperset (py_set (notes self)) (py_set (notes lick)).

(** *** Form.calculate_form *)

(** The scale provider: [ascending key] is [scale(key).ascending()], and
    [scale_name] is [scale.__name__]. *)
Record Scale : Type := mkScale {
  ascending : string -> result (list string);
  scale_name : string
}.

(** [enumerate(l, start)] *)
Fixpoint py_enumerate {A : Type} (from : Z) (l : list A) : list (Z * A) :=
  match l with
  | [] => []
  | x :: t => (from, x) :: py_enumerate (from + 1) t
  end.

Definition chars (s : string) : list string :=
  map (fun c => String c EmptyString) (list_ascii_of_string s).

(** [tuple(String(i, note) for i, note in enumerate('EBGDAE', start=1))] *)
Definition make_strings : result (list GuitarString) :=
  mapM (fun p => String_init (fst p) (snd p)) (py_enumerate 1 (chars "EBGDAE")).

(** [root_forms[form]]: the anchor strings of a form letter. *)
Definition root_forms (strings : list GuitarString) (form : string)
  : result (list GuitarString) :=
  if String.eqb form "C" then mapM (py_index strings) [1; 4]
  else if String.eqb form "A" then mapM (py_index strings) [4; 2]
  else if String.eqb form "G" then mapM (py_index strings) [2; 0; 5]
  else if String.eqb form "E" then mapM (py_index strings) [0; 5; 3]
  else if String.eqb form "D" then mapM (py_index strings) [3; 1]
  else Err KeyError.

(** A [StopIteration] that escapes from the body of a generator reaches
    the caller as a [RuntimeError] (PEP 479, in force from Python 3.7; the
    f-strings of [guitar.py] need 3.6 at least). *)
Definition in_generator {A : Type} (m : result A) : result A :=
  match m with
  | Ok a => Ok a
  | Err e => if exn_eqb e StopIteration then Err RuntimeError else Err e
  end.

Definition find_roots (strings : list GuitarString) (form k : string)
           (form_start : Z) : result (list Note) :=
  anchors <- root_forms strings form ;;
  primary <- py_index anchors 0 ;;
  on_primary <- getitem_name primary k ;;
  first <- py_next (fun n => form_start <=? fret n) on_primary ;;
  others <- mapM (fun s =>
                    in_generator
                      (on_s <- getitem_name s k ;;
                       py_next (fun n => fret first <=? fret n) on_s))
                 (tl anchors) ;;
  Ok (first :: others).

(** The inner loop over the scale notes of one string.  It ends either at
    the end of the candidates or at the [break] after a bridging note. *)
Fixpoint scan (strings : list GuitarString) (i : Z) (cands : list Note)
         (notes_list : list Note) (st : Z) : result (list Note * Z) :=
  match cands with
  | [] => Ok (notes_list, st)
  | note :: rest =>
      if fret note <=? st then scan strings i rest notes_list st
      else
        higher <- py_index strings (i - 2) ;;
        on_higher <- get_notes higher [name note] ;;
        higher_string_note <-
          py_min (fun n => Z.abs (st - fret n)) on_higher ;;
        if 3 <? fret note - st
        then Ok (notes_list ++ [higher_string_note], fret higher_string_note)
        else scan strings i rest (notes_list ++ [note]) st
  end.

(** [while notes_list[0].fret < start: notes_list.pop(0)] *)
Fixpoint drop_below (st : Z) (notes_list : list Note) : result (list Note) :=
  match notes_list with
  | [] => Err IndexError
  | n :: t => if fret n <? st then drop_below st t else Ok notes_list
  end.

(** The branch [i == 1]: the shape is closed on the two outer strings. *)
Definition close_shape (strings : list GuitarString)
           (notes_list : list Note) (st : Z) : result (list Note) :=
  l1 <- drop_below st notes_list ;;
  p <- py_pop l1 ;;
  let l2 := fst p in
  let removed := snd p in
  head <- py_index l2 0 ;;
  l3 <- (if negb (fret head =? fret removed)
         then low <- py_index strings 5 ;;
              n <- py_index (string_notes low) (fret removed) ;;
              Ok (n :: l2)
         else Ok l2) ;;
  mirrored <- mapM (fun note =>
                      high <- py_index strings 0 ;;
                      py_index (string_notes high) (fret note))
                   (filter (fun note => note_string note =? 6) l3) ;;
  Ok (l3 ++ mirrored).

(** [for string in reversed(strings)] *)
Fixpoint walk (strings : list GuitarString) (scale_notes : list string)
         (todo : list GuitarString) (notes_list : list Note) (st : Z)
  : result (list Note) :=
  match todo with
  | [] => Ok notes_list
  | s :: rest =>
      let i := index s in
      if i =? 1 then close_shape strings notes_list st
      else
        cands <- get_notes s scale_notes ;;
        r <- scan strings i cands notes_list st ;;
        walk strings scale_notes rest (fst r) (snd r)
  end.

(** One pass of the body of [calculate_form], up to the test of the
    roots: the roots and the notes collected. *)
Definition attempt (k : string) (sc : Scale) (form : string)
           (form_start : Z) : result (list Note * list Note) :=
  strings <- make_strings ;;
  roots <- find_roots strings form k form_start ;;
  scale_notes <- ascending sc k ;;
  low <- py_index strings 5 ;;
  candidates <- get_notes low scale_notes ;;
  first <- py_next (fun n => form_start <=? fret n) candidates ;;
  notes_list <- walk strings scale_notes (rev strings) [first] (fret first) ;;
  Ok (roots, notes_list).

Definition roots_covered (roots notes_list : list Note) : bool :=
  issubset (py_set roots) (py_set notes_list).

(** [calculate_form]; [fuel] bounds the depth of the retry recursion, and
    [None] means that the bound was too small. *)
Fixpoint calculate_form (fuel : nat) (k : string) (sc : Scale)
         (form : string) (form_start : Z) (transpose : bool)
  : option (result Form) :=
  match fuel with
  | O => None
  | S fuel' =>
      match attempt k sc form form_start with
      | Err e => Some (Err e)
      | Ok (roots, notes_list) =>
          if negb (roots_covered roots notes_list)
          then calculate_form fuel' k sc form (form_start + 1) transpose
          else Some (Form_init notes_list (Some k) (Some (scale_name sc))
                               form transpose)
      end
  end.

End Guitar.

(** ** The scale of the regression fixture

    [mingus.core.scales.Locrian]: the degrees lie 0, 1, 3, 5, 6, 8 and 10
    semitones above the key, and [ascending] closes the octave with the key.
    The model is exact for the key G of the fixture, where it gives
    [G, Ab, Bb, C, Db, Eb, F, G], the list mingus returns.  For another
    key it has the pitch classes of the scale but not the spelling of
    mingus, nor its error on a key that is no note name; no statement
    below reads the scale at another key than G. *)

Definition flat_name (n : Z) : string :=
  nth (Z.to_nat (n mod 12)) notes.flats "C".

Definition Locrian_ascending (k : string) : result (list string) :=
  v <- notes.note_to_int k ;;
  let degrees := map (fun d => flat_name (v + d)) [1; 3; 5; 6; 8; 10] in
  Ok (k :: degrees ++ [k]).

Definition Locrian : Scale := mkScale Locrian_ascending "Locrian".

(** A hash on strings without collisions, to run the model with: the string
    read as a number in base 256, below a leading 1. *)
Fixpoint str_code (s : string) : Z :=
  match s with
  | EmptyString => 1
  | String c t => Z.of_N (N_of_ascii c) + 256 * str_code t
  end.

(** ** Auxiliary definitions for the statements *)

Definition is_digit (c : ascii) : bool :=
  ((48 <=? N_of_ascii c) && (N_of_ascii c <=? 57))%N.

Definition starts_with_digit (s : string) : bool :=
  match s with
  | String c _ => is_digit c
  | EmptyString => false
  end.

(** The same note carrying another effect. *)
Definition with_effect {Effect : Type} (n : @Note Effect) (e : option Effect)
  : @Note Effect :=
  mkNote (note_string n) (fret n) (name n) e.

(** Every note of a string lies on one of its 23 frets. *)
Definition frets_in_range {Effect : Type} (s : @GuitarString Effect) : Prop :=
  Forall (fun n => 0 <= fret n <= 22) (string_notes s).

(** An attempt that ran to its end and was rejected for a missing root. *)
Definition rejected {Effect : Type} (hash : string -> Z) (k : string)
           (sc : Scale) (form : string) (form_start : Z) : bool :=
  match @attempt Effect k sc form form_start with
  | Ok (roots, notes_list) => negb (roots_covered hash roots notes_list)
  | Err _ => false
  end.


(** A scale provider whose scale does not contain the key: the degrees of
    the Locrian scale above the root. *)
Definition Rootless_ascending (k : string) : result (list string) :=
  v <- notes.note_to_int k ;;
  Ok (map (fun d => flat_name (v + d)) [1; 3; 5; 6; 8; 10]).

Definition Rootless : Scale := mkScale Rootless_ascending "Rootless".

(** The strings hashed for the notes of the six strings. *)
Definition fretboard_reprs : list string :=
  match @make_strings unit with
  | Ok strings => map Note_repr (flat_map string_notes strings)
  | Err _ => []
  end.

Definition collision_free (hash : string -> Z) (R : list string) : Prop :=
  forall s t, In s R -> In t R -> hash s = hash t -> s = t.

Definition on_fretboard {Effect : Type} (l : list (@Note Effect)) : bool :=
  forallb (fun n => existsb (String.eqb (Note_repr n)) fretboard_reprs) l.

(** The fixture of [test_d_locrian], and the tuple that [match_scale]
    builds from it. *)
Definition d_locrian : list (Z * list Z) :=
  [(1, [6; 8; 9]); (2, [6; 8; 9]); (3, [5; 6; 8]);
   (4, [5; 6; 8]); (5, [6; 8]); (6, [6; 8; 9])].

Definition match_scale_expected {Effect : Type} (expected : list (Z * list Z))
  : result (list (@Note Effect)) :=
  strings <- make_strings ;;
  per_string <- mapM (fun p =>
                        s <- py_index strings (fst p - 1) ;;
                        mapM (py_index (string_notes s)) (snd p))
                     (rev expected) ;;
  Ok (List.concat per_string).


(** ** The rest of the classes *)

Definition TypeError : exn := Raise "TypeError".

Section Collaborators.
Context {Effect : Type}.
Variable hash : string -> Z.

(** *** class Guitar, built without a track

    [Guitar(tuning=...)]: one [String] per character of the tuning, read
    from its last character, numbered from 1. *)

Record Guitar : Type := mkGuitar {
  guitar_tuning : string;
  guitar_strings : list (@GuitarString Effect)
}.

Definition Guitar_init (tun : string) : result Guitar :=
  strings <- mapM (fun p => String_init (fst p) (snd p))
                  (py_enumerate 1 (rev (chars tun))) ;;
  Ok (mkGuitar tun strings).

(** [Guitar.get_notes]: the set
    [{note for string in self.strings for note in string.get_notes(l)}]. *)
Definition Guitar_get_notes (g : Guitar) (notes_list : list string)
  : result (list (@Note Effect)) :=
  per_string <- mapM (fun s => get_notes s notes_list) (guitar_strings g) ;;
  Ok (py_set hash (List.concat per_string)).

(** [Lick.__contains__]: [note in self.notes], a search of the tuple
    with [==]. *)
Definition Lick_contains (self : @Form Effect) (note : @Note Effect) : bool :=
  existsb (fun y => Note_eq hash note y) (notes self).

(** [Form.join_forms(forms)]: [reduce(operator.add, forms)], which raises
    [TypeError] on an empty sequence. *)
Definition join_forms (args : list (@Form Effect)) : result (@Form Effect) :=
  match args with
  | [] => Err TypeError
  | f :: rest =>
      fold_left (fun acc g => a <- acc ;; Form_add hash a g) rest (Ok f)
  end.

End Collaborators.

(** Two note tuples hold the same notes, by [==]. *)
Definition same_notes {Effect : Type} (hash : string -> Z)
           (l r : list (@Note Effect)) : Prop :=
  forall x, set_mem hash x l = set_mem hash x r.

(** The pitch class of a note name, when it has one. *)
Definition has_pitch (nm : string) (v : Z) : bool :=
  match notes.note_to_int nm with
  | Ok a => a =? v
  | Err _ => false
  end.

(** The five form letters. *)
Definition form_letters : list string := ["C"; "A"; "G"; "E"; "D"].


(** Two note names with the same pitch class. *)
Definition same_pitch (a b : string) : bool :=
  match notes.note_to_int a, notes.note_to_int b with
  | Ok x, Ok y => x =? y
  | _, _ => false
  end.



(** A note that one of the strings holds. *)
Definition on_board {Effect : Type} (strings : list (@GuitarString Effect))
           (n : @Note Effect) : Prop :=
  exists s, In s strings /\ In n (string_notes s).


(** [r] is the lowest note of the string [s] that sounds like [k] at or
    above the fret [floor]. *)
Definition lowest_at {Effect : Type} (s : @GuitarString Effect) (k : string)
           (floor : Z) (r : @Note Effect) : Prop :=
  In r (string_notes s) /\ Note_is_enharmonic r k = Ok true /\
  floor <= fret r /\
  forall n, In n (string_notes s) -> Note_is_enharmonic n k = Ok true ->
            floor <= fret n -> fret r <= fret n.


(** *** class Beat: the notes of a beat

    [Beat.__init__] builds, for each note of the tab source with its
    string number, fret value and effect,
    [Note(string, value, strings[string - 1].get_note_name(value), effect)]. *)
Definition Beat_note {Effect : Type} (strings : list (@GuitarString Effect))
           (st value : Z) (eff : option Effect) : result (@Note Effect) :=
  s <- py_index strings (st - 1) ;;
  nm <- get_note_name (tuning s) value ;;
  Ok (mkNote st value nm eff).

Definition Beat_notes {Effect : Type} (strings : list (@GuitarString Effect))
           (tab : list (Z * Z * option Effect)) : result (list (@Note Effect)) :=
  mapM (fun t => Beat_note strings (fst (fst t)) (snd (fst t)) (snd t)) tab.


(** *** The recursion limit

    Every retry of [calculate_form] is a nested Python call (line 252), and
    nothing in [guitar.py] catches an exception.  [frames] is the number
    of nested calls of [calculate_form] whose body still fits under the
    recursion limit of the interpreter; the call that does not fit raises
    [RecursionError], which reaches the caller. *)

Definition RecursionError : exn := Raise "RecursionError".

Definition calculate_form_py {Effect : Type} (hash : string -> Z)
           (frames : nat) (k : string) (sc : Scale) (form : string)
           (form_start : Z) (transpose : bool) : result (@Form Effect) :=
  match calculate_form hash frames k sc form form_start transpose with
  | Some r => r
  | None => Err RecursionError
  end.



(** * Properties *)

(** ** Generic facts about the sequence primitives *)

Lemma bind_Ok {A B : Type} (m : result A) (k : A -> result B) (b : B) :
  bind m k = Ok b -> exists a, m = Ok a /\ k a = Ok b.
Proof.
  destruct m as [a|e]; simpl; intros H.
  - exists a; split; [reflexivity | exact H].
  - discriminate H.
Qed.

Lemma mapM_Forall2 {A B : Type} (f : A -> result B) (l : list A) :
  forall r, mapM f l = Ok r -> Forall2 (fun x y => f x = Ok y) l r.
Proof.
  induction l as [|x t IH]; simpl; intros r H.
  - injection H as <-. constructor.
  - apply bind_Ok in H as (y & Hy & H).
    apply bind_Ok in H as (r' & Hr' & H).
    injection H as <-. constructor; [exact Hy | apply IH, Hr'].
Qed.

Lemma mapM_length {A B : Type} (f : A -> result B) (l : list A) (r : list B) :
  mapM f l = Ok r -> List.length r = List.length l.
Proof.
  intros H. apply mapM_Forall2 in H.
  symmetry. eapply Forall2_length, H.
Qed.

Lemma filterM_incl {A : Type} (p : A -> result bool) (l : list A) :
  forall r, filterM p l = Ok r -> incl r l.
Proof.
  induction l as [|x t IH]; simpl; intros r H.
  - injection H as <-. apply incl_refl.
  - apply bind_Ok in H as (b & _ & H).
    apply bind_Ok in H as (r' & Hr' & H).
    injection H as <-. specialize (IH _ Hr').
    destruct b.
    + intros y [->|Hy]; [left; reflexivity | right; apply IH, Hy].
    + apply incl_tl, IH.
Qed.

Lemma py_next_none {A : Type} (p : A -> bool) (l : list A) :
  (forall x, In x l -> p x = false) -> py_next p l = Err StopIteration.
Proof.
  induction l as [|x t IH]; simpl; intros H; [reflexivity|].
  rewrite (H x (or_introl eq_refl)). apply IH.
  intros y Hy. apply H. right. exact Hy.
Qed.

Lemma py_index_out {A : Type} (l : list A) (i : Z) :
  i < - Z.of_nat (List.length l) \/ Z.of_nat (List.length l) <= i ->
  py_index l i = Err IndexError.
Proof.
  intros H. unfold py_index.
  destruct (i <? 0) eqn:Hneg.
  - apply Z.ltb_lt in Hneg.
    assert (Hj : (i + Z.of_nat (List.length l) <? 0) = true)
      by (apply Z.ltb_lt; lia).
    rewrite Hj. reflexivity.
  - apply Z.ltb_ge in Hneg.
    assert (Hj : (Z.of_nat (List.length l) <=? i) = true)
      by (apply Z.leb_le; lia).
    rewrite Hj, orb_true_r. reflexivity.
Qed.

Lemma py_index_in {A : Type} (l : list A) (i : Z) :
  0 <= i < Z.of_nat (List.length l) ->
  exists a, nth_error l (Z.to_nat i) = Some a /\ py_index l i = Ok a.
Proof.
  intros H. unfold py_index.
  assert (Hneg : (i <? 0) = false) by (apply Z.ltb_ge; lia).
  rewrite Hneg.
  assert (Hlo : (i <? 0) || (Z.of_nat (List.length l) <=? i) = false).
  { rewrite Hneg. simpl. apply Z.leb_gt. lia. }
  rewrite Hlo.
  destruct (nth_error l (Z.to_nat i)) as [a|] eqn:Hn.
  - exists a. split; reflexivity.
  - apply nth_error_None in Hn. lia.
Qed.

Lemma py_index_negative {A : Type} (l : list A) (i : Z) :
  - Z.of_nat (List.length l) <= i < 0 ->
  py_index l i = py_index l (i + Z.of_nat (List.length l)).
Proof.
  intros H. unfold py_index.
  assert (Hneg : (i <? 0) = true) by (apply Z.ltb_lt; lia).
  assert (Hpos : (i + Z.of_nat (List.length l) <? 0) = false)
    by (apply Z.ltb_ge; lia).
  cbv zeta. rewrite Hneg, !Hpos. reflexivity.
Qed.

Lemma mapM_nth_error {A B : Type} (f : A -> result B) (l : list A) :
  forall r k x, mapM f l = Ok r -> nth_error l k = Some x ->
                exists y, f x = Ok y /\ nth_error r k = Some y.
Proof.
  induction l as [|a t IH]; simpl; intros r k x H Hk.
  - destruct k; discriminate Hk.
  - apply bind_Ok in H as (y & Hy & H).
    apply bind_Ok in H as (r' & Hr' & H).
    injection H as <-.
    destruct k as [|k]; simpl in *.
    + injection Hk as <-. exists y. split; [exact Hy | reflexivity].
    + apply (IH _ _ _ Hr' Hk).
Qed.

Lemma py_range_nth (k : nat) :
  (k < FRETS)%nat -> nth_error (py_range FRETS) k = Some (Z.of_nat k).
Proof.
  unfold FRETS. intros H.
  do 23 (destruct k as [|k]; [reflexivity|]). lia.
Qed.

(** ** The strings *)

Section StringFacts.
Context {Effect : Type}.

Lemma String_init_fields (idx : Z) (tun : string) (s : @GuitarString Effect) :
  String_init idx tun = Ok s ->
  index s = idx /\ tuning s = tun /\
  mapM (fun f => nm <- get_note_name tun f ;; Ok (Note_init idx f nm))
       (py_range FRETS) = Ok (string_notes s).
Proof.
  unfold String_init. intros H.
  apply bind_Ok in H as (v & _ & H).
  destruct (negb v); [discriminate H|].
  apply bind_Ok in H as (ns & Hns & H).
  injection H as <-. simpl. auto.
Qed.

Lemma String_init_length (idx : Z) (tun : string) (s : @GuitarString Effect) :
  String_init idx tun = Ok s ->
  List.length (string_notes s) = FRETS.
Proof.
  intros H. apply String_init_fields in H as (_ & _ & H).
  apply mapM_length in H. rewrite H. reflexivity.
Qed.

(** Fret [k] of a string holds the note [(index, k, get_note_name k)]. *)
Lemma String_init_nth (idx : Z) (tun : string) (s : @GuitarString Effect) (k : nat) :
  String_init idx tun = Ok s -> (k < FRETS)%nat ->
  exists nm, get_note_name tun (Z.of_nat k) = Ok nm /\
             nth_error (string_notes s) k
             = Some (Note_init idx (Z.of_nat k) nm).
Proof.
  intros H Hk. apply String_init_fields in H as (_ & _ & H).
  destruct (mapM_nth_error _ _ _ _ _ H (py_range_nth k Hk)) as (n & Hn & Hnth).
  apply bind_Ok in Hn as (nm & Hnm & Hn). injection Hn as <-.
  exists nm. split; assumption.
Qed.

Lemma String_init_frets (idx : Z) (tun : string) (s : @GuitarString Effect) :
  String_init idx tun = Ok s ->
  Forall (fun n : @Note Effect => 0 <= fret n <= 22) (string_notes s).
Proof.
  intros H. apply Forall_forall. intros n Hn.
  apply In_nth_error in Hn as (k & Hk).
  assert (Hlt : (k < FRETS)%nat).
  { rewrite <- (String_init_length _ _ _ H).
    apply nth_error_Some. rewrite Hk. discriminate. }
  destruct (String_init_nth _ _ _ _ H Hlt) as (nm & _ & Hnth).
  rewrite Hk in Hnth. injection Hnth as ->. simpl.
  unfold FRETS in Hlt. lia.
Qed.

End StringFacts.

Section StringLookup.
Context {Effect : Type}.

(** C6, as the code has it.  Looking a fret up on a [String] indexes the
    tuple of its 23 notes: for a fret in [0, 22] the lookup returns the
    name of the note at that fret; for a fret below -23 or above 22 it
    raises [IndexError]; for a fret in [-23, -1] it does not fail but
    counts from the end, returning what fret [item + 23] holds. *)
Theorem getitem_int_spec (idx : Z) (tun : string) (s : @GuitarString Effect) :
  String_init idx tun = Ok s ->
  (forall item, 0 <= item <= 22 ->
     exists n, nth_error (string_notes s) (Z.to_nat item) = Some n /\
               note_string n = idx /\ fret n = item /\
               get_note_name tun item = Ok (name n) /\
               getitem_int s item = Ok (name n)) /\
  (forall item, -23 <= item <= -1 ->
     getitem_int s item = getitem_int s (item + 23)) /\
  (forall item, item < -23 \/ 22 < item ->
     getitem_int s item = Err IndexError).
Proof.
  intros H. pose proof (String_init_length _ _ _ H) as Hlen.
  unfold FRETS in Hlen.
  split; [|split]; intros item Hitem.
  - assert (Hk : (Z.to_nat item < FRETS)%nat) by (unfold FRETS; lia).
    destruct (String_init_nth _ _ _ _ H Hk) as (nm & Hnm & Hnth).
    rewrite Z2Nat.id in Hnm, Hnth by lia.
    exists (Note_init idx item nm). simpl.
    repeat split; try assumption.
    unfold getitem_int.
    destruct (py_index_in (string_notes s) item) as (a & Ha & Hidx);
      [rewrite Hlen; lia|].
    rewrite Hidx. rewrite Hnth in Ha. injection Ha as <-. reflexivity.
  - unfold getitem_int. rewrite py_index_negative by (rewrite Hlen; lia).
    rewrite Hlen. reflexivity.
  - unfold getitem_int. rewrite py_index_out by (rewrite Hlen; lia).
    reflexivity.
Qed.

End StringLookup.

(** C6 as stated fails at fret -1, which lies outside [0, 22]: the lookup
    on the low E string returns the name of the note at fret 22. *)
Lemma getitem_int_minus_one :
  ~ (0 <= -1 <= 22) /\
  (s <- @String_init unit 6 "E" ;; getitem_int s (-1)) = Ok "D" /\
  (s <- @String_init unit 6 "E" ;; getitem_int s 22) = Ok "D".
Proof.
  split; [lia|]. split; vm_compute; reflexivity.
Qed.

Lemma getitem_int_spec_witness :
  exists s : @GuitarString unit,
    String_init 6 "E" = Ok s /\
    getitem_int s 5 = Ok "A" /\
    getitem_int s (-1) = getitem_int s 22 /\
    getitem_int s 23 = Err IndexError.
Proof.
  destruct (@String_init unit 6 "E") as [s|e] eqn:H;
    [|vm_compute in H; discriminate H].
  exists s. split; [reflexivity|].
  destruct (getitem_int_spec 6 "E" s H) as (Hin & Hneg & Hout).
  split; [|split].
  - destruct (Hin 5) as (n & _ & _ & _ & Hnm & Hget); [lia|].
    rewrite Hget.
    change (get_note_name "E" 5) with (@Ok string "A") in Hnm.
    injection Hnm as <-. reflexivity.
  - apply (Hneg (-1)). lia.
  - apply (Hout 23). lia.
Defined.

(** ** Notes *)

Section NoteFacts.
Context {Effect : Type}.
Variable hash : string -> Z.

Lemma Note_eq_fields (a b : @Note Effect) :
  note_string a = note_string b -> fret a = fret b -> name a = name b ->
  Note_eq hash a b = true.
Proof.
  intros Hs Hf Hn. unfold Note_eq, Note_hash, Note_repr.
  rewrite Hs, Hf, Hn. apply Z.eqb_refl.
Qed.

(** C7.  When the fret of a note, of its octave partner and of the
    partner of the partner all lie in [0, 22], the partner of the partner
    equals the note: [==] holds, and string, fret and name agree. *)
Theorem get_octave_involutive (n : @Note Effect) :
  0 <= fret n <= 22 ->
  0 <= fret (get_octave n) <= 22 ->
  0 <= fret (get_octave (get_octave n)) <= 22 ->
  Note_eq hash (get_octave (get_octave n)) n = true /\
  note_string (get_octave (get_octave n)) = note_string n /\
  fret (get_octave (get_octave n)) = fret n /\
  name (get_octave (get_octave n)) = name n.
Proof.
  intros Hn _ _.
  assert (Hf : fret (get_octave (get_octave n)) = fret n).
  { unfold get_octave. simpl.
    destruct (12 <=? fret n) eqn:H12.
    - apply Z.leb_le in H12.
      assert (H' : (12 <=? fret n - 12) = false) by (apply Z.leb_gt; lia).
      rewrite H'. lia.
    - apply Z.leb_gt in H12.
      assert (H' : (12 <=? fret n + 12) = true) by (apply Z.leb_le; lia).
      rewrite H'. lia. }
  split; [apply Note_eq_fields; [reflexivity | exact Hf | reflexivity]|].
  split; [reflexivity|]. split; [exact Hf | reflexivity].
Qed.

End NoteFacts.

Lemma get_octave_involutive_witness :
  Note_eq str_code (get_octave (get_octave (@Note_init unit 6 3 "G")))
          (Note_init 6 3 "G") = true.
Proof.
  apply (get_octave_involutive str_code (@Note_init unit 6 3 "G"));
    vm_compute; split; discriminate.
Defined.

Section OctaveRange.
Context {Effect : Type}.

(** C10.  [get_octave] checks no range and always returns a note on the
    same string with the same name, twelve frets away.  For a note at
    fret 11 that is fret 23: outside [0, 22], held by no note of a
    23-fret string, and an index at which the string has nothing. *)
Theorem get_octave_fret_11 (n : @Note Effect) (H : fret n = 11) :
  fret (get_octave n) = 23 /\
  ~ (0 <= fret (get_octave n) <= 22) /\
  (forall idx tun (s : @GuitarString Effect),
      String_init idx tun = Ok s ->
      Forall (fun m => fret m <> fret (get_octave n)) (string_notes s) /\
      py_index (string_notes s) (fret (get_octave n)) = Err IndexError) /\
  (forall m : @Note Effect,
      note_string (get_octave m) = note_string m /\
      name (get_octave m) = name m /\
      (fret (get_octave m) = fret m - 12 \/
       fret (get_octave m) = fret m + 12)).
Proof.
  assert (H23 : fret (get_octave n) = 23).
  { unfold get_octave. simpl. rewrite H. reflexivity. }
  split; [exact H23|]. split; [rewrite H23; lia|]. split.
  - intros idx tun s Hs. rewrite H23. split.
    + eapply Forall_impl; [|apply (String_init_frets _ _ _ Hs)].
      simpl. intros m Hm. lia.
    + apply py_index_out. rewrite (String_init_length _ _ _ Hs).
      unfold FRETS. lia.
  - intros m. unfold get_octave. simpl.
    repeat split. destruct (12 <=? fret m); [left | right]; reflexivity.
Qed.

End OctaveRange.

Lemma get_octave_fret_11_witness :
  fret (get_octave (@Note_init unit 6 11 "D#")) = 23.
Proof.
  apply (get_octave_fret_11 (@Note_init unit 6 11 "D#")). reflexivity.
Defined.

(** ** Reading a note back from the string that is hashed *)

Lemma uint_split (d1 : Decimal.uint) :
  forall (d2 : Decimal.uint) (r1 r2 : string),
    (NilEmpty.string_of_uint d1 ++ r1 = NilEmpty.string_of_uint d2 ++ r2)%string ->
    starts_with_digit r1 = false -> starts_with_digit r2 = false ->
    d1 = d2 /\ r1 = r2.
Proof.
  induction d1 as [|d1 IH|d1 IH|d1 IH|d1 IH|d1 IH|d1 IH|d1 IH|d1 IH|d1 IH|d1 IH];
    intros d2 r1 r2; destruct d2; simpl; intros H H1 H2;
    try discriminate H;
    try (subst r1; simpl in H1; discriminate H1);
    try (subst r2; simpl in H2; discriminate H2);
    try (injection H as H; destruct (IH _ _ _ H H1 H2) as [-> ->];
         split; reflexivity).
  split; [reflexivity | exact H].
Qed.

Lemma uint_head_digit (u : Decimal.uint) :
  u <> Decimal.Nil ->
  exists c t, NilEmpty.string_of_uint u = String c t /\ is_digit c = true.
Proof.
  destruct u; intros Hu; try (exfalso; apply Hu; reflexivity);
    simpl; eexists; eexists; split; reflexivity.
Qed.

Lemma NilZero_nonnil (u : Decimal.uint) :
  u <> Decimal.Nil -> NilZero.string_of_uint u = NilEmpty.string_of_uint u.
Proof.
  destruct u; intros Hu; [exfalso; apply Hu|..]; reflexivity.
Qed.

Lemma to_int_nonnil (z : Z) :
  match Z.to_int z with
  | Decimal.Pos u => u <> Decimal.Nil
  | Decimal.Neg u => u <> Decimal.Nil
  end.
Proof.
  destruct z; simpl.
  - discriminate.
  - apply DecimalPos.Unsigned.to_uint_nonnil.
  - apply DecimalPos.Unsigned.to_uint_nonnil.
Qed.

Lemma to_int_inj (a b : Z) : Z.to_int a = Z.to_int b -> a = b.
Proof.
  intros H. rewrite <- (DecimalZ.of_to a), <- (DecimalZ.of_to b), H.
  reflexivity.
Qed.

(** [str(f1) + r1 == str(f2) + r2] determines the number and the rest, when
    neither rest begins with a digit. *)
Lemma py_str_split (f1 f2 : Z) (r1 r2 : string) :
  (py_str f1 ++ r1 = py_str f2 ++ r2)%string ->
  starts_with_digit r1 = false -> starts_with_digit r2 = false ->
  f1 = f2 /\ r1 = r2.
Proof.
  unfold py_str. intros H H1 H2.
  pose proof (to_int_nonnil f1) as N1. pose proof (to_int_nonnil f2) as N2.
  destruct (Z.to_int f1) as [u1|u1] eqn:E1;
    destruct (Z.to_int f2) as [u2|u2] eqn:E2; simpl in H;
    rewrite ?(NilZero_nonnil _ N1), ?(NilZero_nonnil _ N2) in H.
  - destruct (uint_split _ _ _ _ H H1 H2) as [-> ->].
    split; [|reflexivity]. apply to_int_inj. rewrite E1, E2. reflexivity.
  - destruct (uint_head_digit _ N1) as (c & t & Hc & Hd).
    rewrite Hc in H. simpl in H. injection H as -> _. discriminate Hd.
  - destruct (uint_head_digit _ N2) as (c & t & Hc & Hd).
    rewrite Hc in H. simpl in H. injection H as <- _. discriminate Hd.
  - simpl in H. injection H as H.
    destruct (uint_split _ _ _ _ H H1 H2) as [-> ->].
    split; [|reflexivity]. apply to_int_inj. rewrite E1, E2. reflexivity.
Qed.

Lemma py_str_one_digit (z : Z) :
  0 <= z <= 9 ->
  exists c, py_str z = String c EmptyString /\
            z = Z.of_N (N_of_ascii c) - 48.
Proof.
  intros H.
  assert (E : z = 0 \/ z = 1 \/ z = 2 \/ z = 3 \/ z = 4 \/ z = 5 \/ z = 6 \/
              z = 7 \/ z = 8 \/ z = 9) by lia.
  repeat (destruct E as [->|E]); try subst z;
    eexists; split; reflexivity.
Qed.

Section NoteRepr.
Context {Effect : Type}.

(** On an instrument of at most nine strings, and with names that do not
    begin with a digit, the hashed string determines string, fret and
    name. *)
Lemma Note_repr_inj (a b : @Note Effect) :
  0 <= note_string a <= 9 -> 0 <= note_string b <= 9 ->
  starts_with_digit (name a) = false ->
  starts_with_digit (name b) = false ->
  Note_repr a = Note_repr b ->
  note_string a = note_string b /\ fret a = fret b /\ name a = name b.
Proof.
  intros Ha Hb Na Nb H. unfold Note_repr in H.
  destruct (py_str_one_digit _ Ha) as (ca & Ea & Za).
  destruct (py_str_one_digit _ Hb) as (cb & Eb & Zb).
  rewrite Ea, Eb in H. simpl in H. injection H as Hc H.
  destruct (py_str_split _ _ _ _ H Na Nb) as [Hf Hn].
  split; [|split; assumption].
  rewrite Za, Zb, Hc. reflexivity.
Qed.

End NoteRepr.

Lemma str_code_cons (c : ascii) (t : string) :
  str_code (String c t) = Z.of_N (N_of_ascii c) + 256 * str_code t.
Proof. reflexivity. Qed.

Lemma str_code_pos (s : string) : 1 <= str_code s.
Proof.
  induction s as [|c t IH]; [simpl; lia|].
  rewrite str_code_cons. pose proof (N_ascii_bounded c). lia.
Qed.

Lemma str_code_inj (s : string) :
  forall t, str_code s = str_code t -> s = t.
Proof.
  induction s as [|c s IH]; intros [|d t]; rewrite ?str_code_cons; intros H.
  - reflexivity.
  - change (str_code EmptyString) with 1 in H.
    pose proof (str_code_pos t). pose proof (N_ascii_bounded d). lia.
  - change (str_code EmptyString) with 1 in H.
    pose proof (str_code_pos s). pose proof (N_ascii_bounded c). lia.
  - pose proof (N_ascii_bounded c). pose proof (N_ascii_bounded d).
    assert (Hc : N_of_ascii c = N_of_ascii d) by lia.
    assert (Hs : str_code s = str_code t) by lia.
    f_equal.
    + rewrite <- (ascii_N_embedding c), <- (ascii_N_embedding d), Hc.
      reflexivity.
    + apply IH, Hs.
Qed.

(** ** Equality and order of notes *)

Section NoteEquality.
Context {Effect : Type}.
Variable hash : string -> Z.

Lemma Note_eq_true (a b : @Note Effect) :
  Note_eq hash a b = true <-> hash (Note_repr a) = hash (Note_repr b).
Proof. unfold Note_eq, Note_hash. apply Z.eqb_eq. Qed.

Lemma Note_lt_irrefl_on_position (a b : @Note Effect) :
  note_string a = note_string b -> fret a = fret b ->
  Note_lt a b = false /\ Note_lt b a = false.
Proof.
  intros Hs Hf. unfold Note_lt. rewrite Hs, Hf.
  rewrite !Z.ltb_irrefl, andb_false_r. split; reflexivity.
Qed.

(** C4, as the code has it.  [==] compares the hashes of the strings
    [str(string) + str(fret) + name].  For all notes: the effect never
    takes part in hashing or in equality, and notes that agree on string,
    fret and name are equal.  Conversely, two equal notes agree on
    string, fret and name when their string index is a single digit,
    their name does not begin with a digit, and [hash] does not collide
    on their two strings. *)
Theorem Note_eq_spec (a b : @Note Effect) :
  (forall e1 e2,
      Note_hash hash (with_effect a e1) = Note_hash hash a /\
      Note_eq hash (with_effect a e1) (with_effect b e2) = Note_eq hash a b) /\
  (note_string a = note_string b -> fret a = fret b -> name a = name b ->
   Note_eq hash a b = true) /\
  (0 <= note_string a <= 9 -> 0 <= note_string b <= 9 ->
   starts_with_digit (name a) = false ->
   starts_with_digit (name b) = false ->
   (hash (Note_repr a) = hash (Note_repr b) -> Note_repr a = Note_repr b) ->
   Note_eq hash a b = true ->
   note_string a = note_string b /\ fret a = fret b /\ name a = name b).
Proof.
  split; [|split].
  - intros e1 e2. split; reflexivity.
  - intros Hs Hf Hn. apply Note_eq_fields; assumption.
  - intros Ha Hb Na Nb Hcol H. apply Note_eq_true in H.
    apply Note_repr_inj; auto.
Qed.

(** C5, as the code has it.  For all notes, [==] is reflexive, symmetric
    and transitive, and [<] never holds both ways.  Two equal notes are
    not ordered by [<] when their string index is a single digit, their
    name does not begin with a digit and [hash] does not collide on
    them. *)
Theorem Note_eq_equivalence (a b c : @Note Effect) :
  Note_eq hash a a = true /\
  Note_eq hash a b = Note_eq hash b a /\
  (Note_eq hash a b = true -> Note_eq hash b c = true ->
   Note_eq hash a c = true) /\
  ~ (Note_lt a b = true /\ Note_lt b a = true) /\
  (0 <= note_string a <= 9 -> 0 <= note_string b <= 9 ->
   starts_with_digit (name a) = false ->
   starts_with_digit (name b) = false ->
   (hash (Note_repr a) = hash (Note_repr b) -> Note_repr a = Note_repr b) ->
   Note_eq hash a b = true -> Note_lt a b = false /\ Note_lt b a = false).
Proof.
  split; [apply Z.eqb_refl|].
  split; [apply Z.eqb_sym|].
  split.
  { intros H1 H2. apply Note_eq_true in H1, H2. apply Note_eq_true.
    rewrite H1. exact H2. }
  split.
  { unfold Note_lt. intros [H1 H2].
    apply orb_true_iff in H1, H2.
    rewrite !andb_true_iff, !Z.ltb_lt, !Z.eqb_eq in H1, H2. lia. }
  intros Ha Hb Na Nb Hcol H. apply Note_eq_true in H.
  destruct (Note_repr_inj a b Ha Hb Na Nb (Hcol H)) as (Hs & Hf & _).
  apply Note_lt_irrefl_on_position; assumption.
Qed.

End NoteEquality.

(** C4 as stated fails: string 1 at fret 12 and string 11 at fret 2 are
    hashed through the same string, so the two notes are equal under every
    hash, with distinct strings and frets. *)
Lemma Note_eq_distinct_positions :
  Note_repr (@Note_init unit 1 12 "E") = Note_repr (@Note_init unit 11 2 "E") /\
  Note_eq str_code (@Note_init unit 1 12 "E") (Note_init 11 2 "E") = true /\
  note_string (@Note_init unit 1 12 "E") <> note_string (@Note_init unit 11 2 "E") /\
  fret (@Note_init unit 1 12 "E") <> fret (@Note_init unit 11 2 "E").
Proof.
  split; [reflexivity|]. split; [reflexivity|]. split; discriminate.
Qed.

Lemma Note_eq_spec_witness :
  Note_eq str_code (@Note_init unit 6 3 "G") (mkNote 6 3 "G" (Some tt)) = true /\
  (6 = 6 /\ 3 = 3 /\ "G" = "G").
Proof.
  destruct (Note_eq_spec str_code (@Note_init unit 6 3 "G")
                         (mkNote 6 3 "G" (Some tt))) as (_ & Hsame & Hinj).
  split.
  - apply Hsame; reflexivity.
  - apply Hinj; simpl.
    + lia.
    + lia.
    + reflexivity.
    + reflexivity.
    + intros _. reflexivity.
    + reflexivity.
Defined.

(** C5 as stated fails on the same pair: the two notes are equal, and the
    one on string 11 is less than the one on string 1. *)
Lemma Note_eq_yet_ordered :
  Note_eq str_code (@Note_init unit 1 12 "E") (Note_init 11 2 "E") = true /\
  Note_repr (@Note_init unit 1 12 "E") = Note_repr (@Note_init unit 11 2 "E") /\
  Note_lt (@Note_init unit 11 2 "E") (Note_init 1 12 "E") = true.
Proof.
  split; [reflexivity|]. split; reflexivity.
Qed.

Lemma Note_eq_equivalence_witness :
  Note_lt (@Note_init unit 6 3 "G") (mkNote 6 3 "G" (Some tt)) = false /\
  Note_lt (mkNote 6 3 "G" (Some tt)) (@Note_init unit 6 3 "G") = false.
Proof.
  destruct (Note_eq_equivalence str_code (@Note_init unit 6 3 "G")
                                (mkNote 6 3 "G" (Some tt)) (Note_init 5 0 "A"))
    as (_ & _ & _ & _ & Hord).
  apply Hord; simpl.
  - lia.
  - lia.
  - reflexivity.
  - reflexivity.
  - intros _. reflexivity.
  - reflexivity.
Defined.

(** ** Union of forms *)

Lemma option_string_eqb_eq (a b : option string) :
  option_string_eqb a b = true <-> a = b.
Proof.
  destruct a as [x|], b as [y|]; simpl; split; intros H;
    try reflexivity; try discriminate H.
  - apply String.eqb_eq in H. subst. reflexivity.
  - injection H as ->. apply String.eqb_refl.
Qed.

Section FormUnion.
Context {Effect : Type}.
Variable hash : string -> Z.

(** C1, as the code has it.  The union of two forms never fails.  With
    equal keys the result keeps the key; its scale is the scale of the
    left operand when both scales agree and [None] otherwise; its form
    label is the concatenation of the two labels when the left operand
    itself has a scale (neither [None] nor empty), whether or not that
    scale is retained, and empty otherwise.  With different keys the
    result has no key, no scale and an empty label. *)
Theorem Form_add_metadata (A B : @Form Effect) :
  exists r,
    Form_add hash A B = Ok r /\
    (key A = key B ->
     key r = key A /\
     (scale A = scale B -> scale r = scale A) /\
     (scale A <> scale B -> scale r = None) /\
     (truthy (scale A) = true -> forms r = (forms A ++ forms B)%string) /\
     (truthy (scale A) = false -> forms r = EmptyString)) /\
    (key A <> key B ->
     key r = None /\ scale r = None /\ forms r = EmptyString).
Proof.
  unfold Form_add.
  destruct (option_string_eqb (key A) (key B)) eqn:Hk.
  - eexists. split; [reflexivity|]. simpl. split.
    + intros _. split; [reflexivity|].
      destruct (option_string_eqb (scale A) (scale B)) eqn:Hs.
      * apply option_string_eqb_eq in Hs.
        split; [reflexivity|]. split; [intros F; contradiction|].
        split; intros ->; reflexivity.
      * assert (Hne : scale A <> scale B).
        { intros E. apply option_string_eqb_eq in E. congruence. }
        split; [intros E; contradiction|]. split; [reflexivity|].
        split; intros ->; reflexivity.
    + intros Hne. apply option_string_eqb_eq in Hk. contradiction.
  - eexists. split; [reflexivity|]. simpl. split.
    + intros E. apply option_string_eqb_eq in E. congruence.
    + intros _. repeat split.
Qed.

End FormUnion.

(** C1 as stated fails for two forms in G with different scales: no scale
    is retained in the union, and yet the form labels are concatenated. *)
Lemma Form_add_label_without_scale :
  exists r : @Form unit,
    Form_add str_code
      (mkForm [Note_init 4 5 "G"] None None (Some "G") (Some "Locrian") "D")
      (mkForm [Note_init 5 10 "G"] None None (Some "G") (Some "Ionian") "A")
    = Ok r /\
    key r = Some "G" /\ scale r = None /\ forms r = "DA" /\
    forms r <> EmptyString.
Proof.
  eexists. split; [vm_compute; reflexivity|]. simpl.
  repeat split. discriminate.
Qed.

Lemma Form_add_metadata_witness :
  (exists r : @Form unit,
      Form_add str_code
        (mkForm [Note_init 4 5 "G"] None None (Some "G") (Some "Locrian") "D")
        (mkForm [Note_init 5 10 "G"] None None (Some "G") (Some "Locrian") "A")
      = Ok r /\ key r = Some "G" /\ scale r = Some "Locrian" /\ forms r = "DA") /\
  (exists r : @Form unit,
      Form_add str_code
        (mkForm [Note_init 4 5 "G"] None None (Some "G") (Some "Locrian") "D")
        (mkForm [Note_init 5 0 "A"] None None (Some "A") (Some "Locrian") "A")
      = Ok r /\ key r = None /\ scale r = None /\ forms r = EmptyString).
Proof.
  split.
  - destruct (Form_add_metadata str_code
        (mkForm [@Note_init unit 4 5 "G"] None None (Some "G") (Some "Locrian") "D")
        (mkForm [Note_init 5 10 "G"] None None (Some "G") (Some "Locrian") "A"))
      as (r & Hr & Hsame & _).
    exists r. split; [exact Hr|].
    destruct (Hsame eq_refl) as (Hkey & Hsc & _ & Hfs & _).
    split; [exact Hkey|].
    split; [apply Hsc; reflexivity | apply Hfs; reflexivity].
  - destruct (Form_add_metadata str_code
        (mkForm [@Note_init unit 4 5 "G"] None None (Some "G") (Some "Locrian") "D")
        (mkForm [Note_init 5 0 "A"] None None (Some "A") (Some "Locrian") "A"))
      as (r & Hr & _ & Hdiff).
    exists r. split; [exact Hr|].
    apply Hdiff. simpl. discriminate.
Defined.

(** ** The retry recursion of [calculate_form] *)

Lemma py_next_Ok {A : Type} (p : A -> bool) (l : list A) (x : A) :
  py_next p l = Ok x -> In x l /\ p x = true.
Proof.
  induction l as [|y t IH]; simpl; intros H; [discriminate H|].
  destruct (p y) eqn:Hy.
  - injection H as <-. split; [left; reflexivity | exact Hy].
  - destruct (IH H) as [Hin Hp]. split; [right; exact Hin | exact Hp].
Qed.

Lemma py_index_In {A : Type} (l : list A) (i : Z) (a : A) :
  py_index l i = Ok a -> In a l.
Proof.
  unfold py_index. cbv zeta.
  destruct ((_ <? 0) || _); [discriminate|].
  match goal with |- context [nth_error l ?k] =>
    destruct (nth_error l k) as [x|] eqn:Hn end; intros H.
  - injection H as <-. eapply nth_error_In, Hn.
  - discriminate H.
Qed.

Lemma mapM_incl {A B : Type} (f : A -> result B) (P : B -> Prop) (l : list A) :
  (forall x y, f x = Ok y -> P y) ->
  forall r, mapM f l = Ok r -> Forall P r.
Proof.
  intros Hf r H. apply mapM_Forall2 in H.
  induction H as [|x y l' r' Hxy _ IH]; constructor; [eapply Hf, Hxy | exact IH].
Qed.

Section Retry.
Context {Effect : Type}.

Lemma make_strings_frets (strings : list (@GuitarString Effect)) :
  make_strings = Ok strings -> Forall frets_in_range strings.
Proof.
  unfold make_strings. apply mapM_incl.
  intros p s Hs. exact (String_init_frets _ _ _ Hs).
Qed.

Lemma root_forms_incl (strings anchors : list (@GuitarString Effect))
      (form : string) :
  root_forms strings form = Ok anchors -> Forall (fun s => In s strings) anchors.
Proof.
  unfold root_forms.
  repeat match goal with
         | |- context [String.eqb form ?c] => destruct (String.eqb form c)
         end;
    try discriminate;
    apply mapM_incl; intros i s; apply py_index_In.
Qed.

(** A search for the roots that succeeds has found its first root at or
    above the floor, on a string of 23 frets. *)
Lemma find_roots_bound (strings : list (@GuitarString Effect))
      (form k : string) (form_start : Z) (roots : list Note) :
  Forall frets_in_range strings ->
  find_roots strings form k form_start = Ok roots ->
  form_start <= 22.
Proof.
  intros Hstr H. unfold find_roots in H.
  apply bind_Ok in H as (anchors & Hanch & H).
  apply bind_Ok in H as (primary & Hprim & H).
  apply bind_Ok in H as (on_primary & Hon & H).
  apply bind_Ok in H as (first & Hfirst & _).
  apply py_next_Ok in Hfirst as [Hin Hge].
  apply Z.leb_le in Hge.
  apply filterM_incl in Hon. apply Hon in Hin.
  apply py_index_In in Hprim.
  apply root_forms_incl in Hanch.
  rewrite Forall_forall in Hanch, Hstr.
  specialize (Hstr _ (Hanch _ Hprim)).
  unfold frets_in_range in Hstr. rewrite Forall_forall in Hstr.
  specialize (Hstr _ Hin). lia.
Qed.

Lemma attempt_bound (k : string) (sc : Scale) (form : string)
      (form_start : Z) (r : list (@Note Effect) * list Note) :
  attempt k sc form form_start = Ok r -> form_start <= 22.
Proof.
  unfold attempt. intros H.
  apply bind_Ok in H as (strings & Hs & H).
  apply bind_Ok in H as (roots & Hr & _).
  eapply find_roots_bound; [apply make_strings_frets, Hs | exact Hr].
Qed.

Variable hash : string -> Z.

Lemma calculate_form_reject (n : nat) (k : string) (sc : Scale)
      (form : string) (j : Z) (tr : bool) (roots nl : list (@Note Effect)) :
  attempt k sc form j = Ok (roots, nl) ->
  roots_covered hash roots nl = false ->
  @calculate_form Effect hash (S n) k sc form j tr
  = calculate_form hash n k sc form (j + 1) tr.
Proof. intros Ha Hc. simpl. rewrite Ha, Hc. reflexivity. Qed.

Lemma calculate_form_accept (n : nat) (k : string) (sc : Scale)
      (form : string) (j : Z) (tr : bool) (roots nl : list (@Note Effect)) :
  attempt k sc form j = Ok (roots, nl) ->
  roots_covered hash roots nl = true ->
  @calculate_form Effect hash (S n) k sc form j tr
  = Some (Form_init nl (Some k) (Some (scale_name sc)) form tr).
Proof. intros Ha Hc. simpl. rewrite Ha, Hc. reflexivity. Qed.

Lemma calculate_form_raise (n : nat) (k : string) (sc : Scale)
      (form : string) (j : Z) (tr : bool) (e : exn) :
  attempt k sc form j = @Err (list (@Note Effect) * list Note) e ->
  @calculate_form Effect hash (S n) k sc form j tr = Some (Err e).
Proof. intros Ha. simpl. rewrite Ha. reflexivity. Qed.

(** More fuel does not change a result. *)
Lemma calculate_form_more_fuel (n : nat) :
  forall (m : nat) (k : string) (sc : Scale) (form : string) (j : Z)
         (tr : bool) (r : result (@Form Effect)),
    (n <= m)%nat ->
    calculate_form hash n k sc form j tr = Some r ->
    calculate_form hash m k sc form j tr = Some r.
Proof.
  induction n as [|n IH]; intros m k sc form j tr r Hle H;
    [discriminate H|].
  destruct m as [|m]; [lia|].
  simpl in *.
  destruct (attempt k sc form j) as [[roots nl]|e]; [|exact H].
  destruct (negb (roots_covered hash roots nl)); [|exact H].
  apply IH; [lia | exact H].
Qed.

(** C9.  [calculate_form] terminates on every input: a retry happens only
    after an attempt that found its first root at or above the floor, so
    the floor of a retried attempt is at most 22, and a recursion depth
    of [FRETS - form_start + 1] always suffices: 24 calls from floor 0. *)
Theorem calculate_form_terminates (k : string) (sc : Scale) (form : string)
        (form_start : Z) (transpose : bool) :
  exists r : result (@Form Effect),
    calculate_form hash (S (Z.to_nat (Z.of_nat FRETS - form_start)))
                   k sc form form_start transpose = Some r.
Proof.
  remember (Z.to_nat (Z.of_nat FRETS - form_start)) as n eqn:Hn.
  revert form_start Hn.
  induction n as [|n IH]; intros form_start Hn.
  - simpl. destruct (attempt k sc form form_start) as [[roots nl]|e] eqn:Ha.
    + apply attempt_bound in Ha. unfold FRETS in Hn. lia.
    + eexists. reflexivity.
  - destruct (@attempt Effect k sc form form_start) as [[roots nl]|e] eqn:Ha.
    + destruct (roots_covered hash roots nl) eqn:Hc.
      * rewrite (calculate_form_accept _ _ _ _ _ _ _ _ Ha Hc).
        eexists. reflexivity.
      * rewrite (calculate_form_reject _ _ _ _ _ _ _ _ Ha Hc).
        apply IH. lia.
    + rewrite (calculate_form_raise _ _ _ _ _ _ _ Ha).
      eexists. reflexivity.
Qed.

End Retry.

(** ** Exhausting the fretboard *)

Lemma int_to_note_valid (x : Z) (nm : string) :
  notes.int_to_note x = Ok nm -> notes.note_to_int nm = Ok x.
Proof.
  unfold notes.int_to_note.
  destruct ((0 <=? x) && (x <? 12)) eqn:Hx; [|discriminate].
  apply andb_true_iff in Hx as [H0 H12].
  apply Z.leb_le in H0. apply Z.ltb_lt in H12.
  assert (E : x = 0 \/ x = 1 \/ x = 2 \/ x = 3 \/ x = 4 \/ x = 5 \/ x = 6 \/
              x = 7 \/ x = 8 \/ x = 9 \/ x = 10 \/ x = 11) by lia.
  repeat (destruct E as [->|E]); try subst x;
    simpl; intros H; injection H as <-; reflexivity.
Qed.

Lemma filterM_total {A : Type} (p : A -> result bool) (l : list A) :
  Forall (fun x => exists b, p x = Ok b) l ->
  exists r, filterM p l = Ok r /\ incl r l.
Proof.
  intros H. induction H as [|x t [b Hb] _ [r [Hr Hincl]]]; simpl.
  - exists []. split; [reflexivity | apply incl_refl].
  - rewrite Hb, Hr. simpl. eexists. split; [reflexivity|].
    destruct b.
    + intros y [->|Hy]; [left; reflexivity | right; apply Hincl, Hy].
    + apply incl_tl, Hincl.
Qed.

Section Exhaustion.
Context {Effect : Type}.

Lemma String_init_names (idx : Z) (tun : string) (s : @GuitarString Effect) :
  String_init idx tun = Ok s ->
  Forall (fun n => exists v, notes.note_to_int (name n) = Ok v)
         (string_notes s).
Proof.
  intros H. apply Forall_forall. intros n Hn.
  apply In_nth_error in Hn as (i & Hi).
  assert (Hlt : (i < FRETS)%nat).
  { rewrite <- (String_init_length _ _ _ H).
    apply nth_error_Some. rewrite Hi. discriminate. }
  destruct (String_init_nth _ _ _ _ H Hlt) as (nm & Hnm & Hnth).
  rewrite Hi in Hnth. injection Hnth as ->. simpl.
  unfold get_note_name in Hnm.
  apply bind_Ok in Hnm as (sv & _ & Hnm).
  eexists. apply int_to_note_valid, Hnm.
Qed.

Lemma make_strings_inits (strings : list (@GuitarString Effect)) :
  make_strings = Ok strings ->
  Forall (fun s => exists idx tun, String_init idx tun = Ok s) strings.
Proof.
  unfold make_strings. apply mapM_incl.
  intros p s Hs. exists (fst p), (snd p). exact Hs.
Qed.

Lemma make_strings_Ok :
  exists strings : list (@GuitarString Effect),
    make_strings = Ok strings /\ List.length strings = 6%nat.
Proof.
  destruct (@make_strings Effect) as [strings|e] eqn:H.
  - exists strings. split; [reflexivity|].
    unfold make_strings in H. apply mapM_length in H. exact H.
  - vm_compute in H. discriminate H.
Qed.

Lemma root_forms_Ok (strings : list (@GuitarString Effect)) (form : string) :
  List.length strings = 6%nat ->
  In form ["C"; "A"; "G"; "E"; "D"] ->
  exists primary others,
    root_forms strings form = Ok (primary :: others) /\ In primary strings.
Proof.
  intros Hlen Hform.
  destruct strings as [|s1 [|s2 [|s3 [|s4 [|s5 [|s6 [|]]]]]]];
    try discriminate Hlen.
  simpl in Hform.
  repeat (destruct Hform as [<-|Hform]); try contradiction;
    eexists; eexists; (split; [reflexivity|]); simpl; tauto.
Qed.



Variable hash : string -> Z.

Lemma rejected_attempt (k : string) (sc : Scale) (form : string) (j : Z) :
  @rejected Effect hash k sc form j = true ->
  exists roots nl : list (@Note Effect),
    attempt k sc form j = Ok (roots, nl) /\
    roots_covered hash roots nl = false.
Proof.
  unfold rejected.
  destruct (attempt k sc form j) as [[roots nl]|e]; [|discriminate].
  intros H. exists roots, nl. split; [reflexivity|].
  apply negb_true_iff, H.
Qed.


(** C2.  Whenever synthesis succeeds without [transpose], the same call
    with [transpose] set fails: [Form.__init__] calls [extend] on
    [self.notes], which [Lick.__init__] has made a tuple. *)
Theorem calculate_form_transpose_fails (fuel : nat) (k : string)
        (sc : Scale) (form : string) :
  forall (form_start : Z) (f : @Form Effect),
    calculate_form hash fuel k sc form form_start false = Some (Ok f) ->
    @calculate_form Effect hash fuel k sc form form_start true
    = Some (Err AttributeError).
Proof.
  induction fuel as [|fuel IH]; intros form_start f H; [discriminate H|].
  simpl in *.
  destruct (attempt k sc form form_start) as [[roots nl]|e];
    [|discriminate H].
  destruct (negb (roots_covered hash roots nl)).
  - eapply IH, H.
  - reflexivity.
Qed.

End Exhaustion.



(** A secondary anchor can run out first: for the form A the retry at
    floor 11 finds G on the A string at fret 22 and no G at or above it on
    the G string, and the call ends in a [RuntimeError]. *)
Example calculate_form_rootless_A :
  @calculate_form unit str_code 24 "G" Rootless "A" 0 false
  = Some (Err RuntimeError).
Proof. vm_compute. reflexivity. Qed.

Lemma calculate_form_transpose_fails_witness :
  @calculate_form unit str_code 6 "G" Locrian "D" 0 true
  = Some (Err AttributeError).
Proof.
  eapply (@calculate_form_transpose_fails unit str_code 6 "G" Locrian "D" 0).
  vm_compute. reflexivity.
Defined.

(** ** The regression fixture *)

Lemma forallb_agree {A : Type} (f g : A -> bool) (l : list A) :
  (forall x, In x l -> f x = g x) -> forallb f l = forallb g l.
Proof.
  induction l as [|x t IH]; simpl; intros H; [reflexivity|].
  rewrite (H x (or_introl eq_refl)), IH; [reflexivity|].
  intros y Hy. apply H. right. exact Hy.
Qed.

Section HashAgreement.
Context {Effect : Type}.
Variables (h1 h2 : string -> Z) (R : list string).

Let within (l : list (@Note Effect)) : Prop :=
  Forall (fun a => In (Note_repr a) R) l.

Hypothesis agree :
  forall a b : @Note Effect,
    In (Note_repr a) R -> In (Note_repr b) R ->
    Note_eq h1 a b = Note_eq h2 a b.

Lemma set_mem_agree (x : @Note Effect) (s : list Note) :
  In (Note_repr x) R -> within s -> set_mem h1 x s = set_mem h2 x s.
Proof.
  intros Hx Hs. unfold set_mem.
  induction Hs as [|y t Hy _ IH]; simpl; [reflexivity|].
  rewrite (agree x y Hx Hy), IH. reflexivity.
Qed.

Lemma set_add_agree (s : list (@Note Effect)) (x : Note) :
  In (Note_repr x) R -> within s ->
  set_add h1 s x = set_add h2 s x /\ within (set_add h2 s x).
Proof.
  intros Hx Hs. unfold set_add.
  rewrite (set_mem_agree x s Hx Hs).
  split; [reflexivity|].
  destruct (set_mem h2 x s); [exact Hs|].
  apply Forall_app. split; [exact Hs | constructor; [exact Hx | constructor]].
Qed.

Lemma fold_set_add_agree (xs : list (@Note Effect)) :
  forall acc, within xs -> within acc ->
              fold_left (set_add h1) xs acc = fold_left (set_add h2) xs acc /\
              within (fold_left (set_add h2) xs acc).
Proof.
  induction xs as [|x t IH]; intros acc Hxs Hacc; simpl.
  - split; [reflexivity | exact Hacc].
  - inversion Hxs as [|? ? Hx Ht]; subst.
    destruct (set_add_agree acc x Hx Hacc) as [E W].
    rewrite E. apply IH; assumption.
Qed.

Lemma roots_covered_agree (roots nl : list (@Note Effect)) :
  within roots -> within nl ->
  roots_covered h1 roots nl = roots_covered h2 roots nl.
Proof.
  intros Hr Hn. unfold roots_covered, py_set.
  destruct (fold_set_add_agree roots [] Hr (Forall_nil _)) as [Er Wr].
  destruct (fold_set_add_agree nl [] Hn (Forall_nil _)) as [En Wn].
  rewrite Er, En. unfold issubset.
  apply forallb_agree. intros x Hx.
  apply set_mem_agree; [|exact Wn].
  unfold within in Wr. rewrite Forall_forall in Wr. apply Wr, Hx.
Qed.

End HashAgreement.

Lemma on_fretboard_within {Effect : Type} (l : list (@Note Effect)) :
  on_fretboard l = true ->
  Forall (fun a => In (Note_repr a) fretboard_reprs) l.
Proof.
  unfold on_fretboard. rewrite forallb_forall. intros H.
  apply Forall_forall. intros a Ha. specialize (H a Ha).
  apply existsb_exists in H as (s & Hs & E).
  apply String.eqb_eq in E. rewrite E. exact Hs.
Qed.

(** On the fretboard a hash without collisions decides coverage of the
    roots like the reference hash [str_code]. *)
Lemma roots_covered_collision_free {Effect : Type} (hash : string -> Z)
      (roots nl : list (@Note Effect)) :
  collision_free hash fretboard_reprs ->
  on_fretboard roots = true -> on_fretboard nl = true ->
  roots_covered hash roots nl = roots_covered str_code roots nl.
Proof.
  intros Hfree Hr Hn.
  apply (roots_covered_agree hash str_code fretboard_reprs);
    [|apply on_fretboard_within, Hr | apply on_fretboard_within, Hn].
  intros a b Ha Hb. apply eq_true_iff_eq.
  rewrite !Note_eq_true. split; intros H.
  - rewrite (Hfree _ _ Ha Hb H). reflexivity.
  - apply str_code_inj in H. rewrite H. reflexivity.
Qed.

Section Fixture.
Context {Effect : Type}.
Variable hash : string -> Z.
Hypothesis hash_free : collision_free hash fretboard_reprs.

Ltac reject_floor :=
  erewrite calculate_form_reject;
  [ | vm_compute; reflexivity
    | rewrite (roots_covered_collision_free hash _ _ hash_free);
      vm_compute; reflexivity ].

(** C8.  For the key G, the Locrian scale, the form D and the floor 0,
    [calculate_form] returns, after five rejected attempts, the form
    whose notes are the tuple that [test_d_locrian] expects: frets 6, 8, 9
    on strings 6, 2 and 1, frets 5, 6, 8 on strings 4 and 3, frets 6, 8
    on string 5, in the order of [<] on notes.  The hash is taken not to
    collide on the positions of the fretboard. *)
Theorem calculate_form_d_locrian (fuel : nat) :
  (6 <= fuel)%nat ->
  exists nl : list (@Note Effect),
    match_scale_expected d_locrian = Ok nl /\
    calculate_form hash fuel "G" Locrian "D" 0 false
    = Some (Ok (mkForm nl None None (Some "G") (Some "Locrian") "D")) /\
    map (fun n => (note_string n, fret n)) nl
    = [(6, 6); (6, 8); (6, 9); (5, 6); (5, 8); (4, 5); (4, 6); (4, 8);
       (3, 5); (3, 6); (3, 8); (2, 6); (2, 8); (2, 9); (1, 6); (1, 8);
       (1, 9)] /\
    StronglySorted (fun a b => Note_lt a b = true) nl.
Proof.
  intros Hfuel. eexists. split; [vm_compute; reflexivity|]. split; [|split].
  - apply (calculate_form_more_fuel hash 6); [exact Hfuel|].
    do 5 reject_floor.
    erewrite calculate_form_accept;
      [ | vm_compute; reflexivity
        | rewrite (roots_covered_collision_free hash _ _ hash_free);
          vm_compute; reflexivity ].
    reflexivity.
  - reflexivity.
  - repeat (constructor; [|repeat (constructor; [reflexivity|]); constructor]).
    constructor.
Qed.

End Fixture.

Lemma calculate_form_d_locrian_witness :
  exists nl : list (@Note unit),
    match_scale_expected d_locrian = Ok nl /\
    calculate_form str_code 6 "G" Locrian "D" 0 false
    = Some (Ok (mkForm nl None None (Some "G") (Some "Locrian") "D")).
Proof.
  destruct (@calculate_form_d_locrian unit str_code) with (fuel := 6%nat)
    as (nl & Hexp & Hform & _).
  - intros s t _ _. apply str_code_inj.
  - lia.
  - exists nl. split; assumption.
Defined.

(** * Further properties of the fretboard model *)

(** ** Construction of a string *)

Lemma mapM_total {A B : Type} (f : A -> result B) (l : list A) :
  Forall (fun x => exists y, f x = Ok y) l -> exists r, mapM f l = Ok r.
Proof.
  intros H. induction H as [|x t [y Hy] _ [r Hr]]; simpl.
  - exists []. reflexivity.
  - rewrite Hy, Hr. simpl. eexists. reflexivity.
Qed.

Lemma is_valid_note_to_int (nm : string) :
  notes.is_valid_note nm = Ok true ->
  exists sv, notes.note_to_int nm = Ok sv /\ 0 <= sv < 12.
Proof.
  destruct nm as [|c post]; simpl; [discriminate|].
  unfold notes.note_to_int. simpl.
  destruct (notes.note_dict c) as [base|]; [|discriminate].
  intros H. injection H as H. rewrite H.
  eexists. split; [reflexivity|]. apply Z.mod_pos_bound. lia.
Qed.

Lemma is_invalid_note_to_int (nm : string) :
  notes.is_valid_note nm = Ok false ->
  notes.note_to_int nm = Err NoteFormatError.
Proof.
  destruct nm as [|c post]; simpl; [discriminate|].
  unfold notes.note_to_int. simpl.
  destruct (notes.note_dict c) as [base|]; [|reflexivity].
  intros H. injection H as H. rewrite H. reflexivity.
Qed.

Lemma note_to_int_range (nm : string) (v : Z) :
  notes.note_to_int nm = Ok v -> 0 <= v < 12.
Proof.
  destruct nm as [|c post]; [discriminate|].
  unfold notes.note_to_int. simpl.
  destruct (notes.note_dict c) as [base|]; [|discriminate].
  destruct (forallb notes.is_accidental (list_ascii_of_string post));
    [|discriminate].
  intros H. injection H as <-. apply Z.mod_pos_bound. lia.
Qed.

Lemma int_to_note_total (x : Z) :
  0 <= x < 12 -> exists nm, notes.int_to_note x = Ok nm.
Proof.
  intros H.
  assert (E : x = 0 \/ x = 1 \/ x = 2 \/ x = 3 \/ x = 4 \/ x = 5 \/ x = 6 \/
              x = 7 \/ x = 8 \/ x = 9 \/ x = 10 \/ x = 11) by lia.
  repeat (destruct E as [->|E]); try subst x; eexists; reflexivity.
Qed.

Lemma get_note_name_Ok (tun : string) (sv f : Z) :
  notes.note_to_int tun = Ok sv ->
  exists nm, get_note_name tun f = Ok nm /\
             notes.note_to_int nm = Ok ((sv + f) mod 12).
Proof.
  intros H. unfold get_note_name. rewrite H. simpl.
  destruct (int_to_note_total ((sv + f) mod 12)) as [nm Hnm].
  { apply Z.mod_pos_bound. lia. }
  exists nm. split; [exact Hnm | apply int_to_note_valid, Hnm].
Qed.

Section StringConstruction.
Context {Effect : Type}.

Lemma String_init_valid (idx : Z) (tun : string) :
  notes.is_valid_note tun = Ok true ->
  exists s : @GuitarString Effect,
    String_init idx tun = Ok s /\ index s = idx /\ tuning s = tun /\
    List.length (string_notes s) = 23%nat.
Proof.
  intros H. unfold String_init. rewrite H. cbn [bind negb].
  destruct (is_valid_note_to_int tun H) as (sv & Hsv & _).
  destruct (mapM_total
              (fun f => nm <- get_note_name tun f ;;
                        Ok (@Note_init Effect idx f nm))
              (py_range FRETS)) as [ns Hns].
  { apply Forall_forall. intros f _.
    destruct (get_note_name_Ok tun sv f Hsv) as (nm & Hnm & _).
    rewrite Hnm. simpl. eexists. reflexivity. }
  rewrite Hns. cbn [bind]. eexists. split; [reflexivity|].
  cbn [index tuning string_notes]. repeat split.
  apply mapM_length in Hns. rewrite Hns. reflexivity.
Qed.

Lemma String_init_invalid (idx : Z) (tun : string) :
  notes.is_valid_note tun = Ok false ->
  @String_init Effect idx tun = Err ValueError.
Proof. intros H. unfold String_init. rewrite H. reflexivity. Qed.

(** The note at fret [f] of a string and its pitch class. *)
Lemma String_init_pitch (idx : Z) (tun : string)
      (s : @GuitarString Effect) (sv f : Z) :
  String_init idx tun = Ok s ->
  notes.note_to_int tun = Ok sv ->
  0 <= f <= 22 ->
  exists n, nth_error (string_notes s) (Z.to_nat f) = Some n /\
            note_string n = idx /\ fret n = f /\ effect n = None /\
            notes.note_to_int (name n) = Ok ((sv + f) mod 12).
Proof.
  intros Hs Hsv Hf.
  assert (Hk : (Z.to_nat f < FRETS)%nat) by (unfold FRETS; lia).
  destruct (String_init_nth _ _ _ _ Hs Hk) as (nm & Hnm & Hnth).
  rewrite Z2Nat.id in Hnm, Hnth by lia.
  exists (Note_init idx f nm). simpl. repeat split; try assumption.
  destruct (get_note_name_Ok tun sv f Hsv) as (nm' & Hnm' & Hpc).
  rewrite Hnm in Hnm'. injection Hnm' as <-. exact Hpc.
Qed.

(** X1.  [String(index, tuning)] raises [IndexError] on the empty tuning
    and [ValueError] on a tuning that is not a note name; on a note name it
    builds a string of 23 notes with that index and tuning. *)
Theorem String_init_spec (idx : Z) (tun : string) :
  (tun = EmptyString -> @String_init Effect idx tun = Err IndexError) /\
  (notes.is_valid_note tun = Ok false ->
   @String_init Effect idx tun = Err ValueError) /\
  (notes.is_valid_note tun = Ok true ->
   exists s : @GuitarString Effect,
     String_init idx tun = Ok s /\ index s = idx /\ tuning s = tun /\
     List.length (string_notes s) = 23%nat).
Proof.
  split; [|split].
  - intros ->. reflexivity.
  - apply String_init_invalid.
  - apply String_init_valid.
Qed.

(** X2.  The note at fret [f] of a string lies on that string at that
    fret, carries no effect, and its name has the pitch class of the open
    string raised by [f] semitones, modulo 12. *)
Theorem String_pitch_invariant (idx : Z) (tun : string)
        (s : @GuitarString Effect) (sv f : Z) :
  String_init idx tun = Ok s ->
  notes.note_to_int tun = Ok sv ->
  0 <= f <= 22 ->
  exists n, nth_error (string_notes s) (Z.to_nat f) = Some n /\
            note_string n = idx /\ fret n = f /\ effect n = None /\
            notes.note_to_int (name n) = Ok ((sv + f) mod 12).
Proof.
  intros Hs Hsv Hf.
  assert (Hk : (Z.to_nat f < FRETS)%nat) by (unfold FRETS; lia).
  destruct (String_init_nth _ _ _ _ Hs Hk) as (nm & Hnm & Hnth).
  rewrite Z2Nat.id in Hnm, Hnth by lia.
  exists (Note_init idx f nm). simpl. repeat split; try assumption.
  destruct (get_note_name_Ok tun sv f Hsv) as (nm' & Hnm' & Hpc).
  rewrite Hnm in Hnm'. injection Hnm' as <-. exact Hpc.
Qed.

Lemma get_note_name_period (tun : string) (f : Z) :
  @get_note_name tun (f + 12) = get_note_name tun f.
Proof.
  unfold get_note_name. destruct (notes.note_to_int tun) as [sv|e]; simpl;
    [|reflexivity].
  replace (sv + (f + 12)) with (sv + f + 1 * 12) by lia.
  rewrite Z_mod_plus_full. reflexivity.
Qed.

Lemma String_init_In (idx : Z) (tun : string) (s : @GuitarString Effect)
      (n : @Note Effect) :
  String_init idx tun = Ok s ->
  (In n (string_notes s) <->
   0 <= fret n <= 22 /\ get_note_name tun (fret n) = Ok (name n) /\
   n = Note_init idx (fret n) (name n)).
Proof.
  intros Hs. split.
  - intros Hn. apply In_nth_error in Hn as (i & Hi).
    assert (Hlt : (i < FRETS)%nat).
    { rewrite <- (String_init_length _ _ _ Hs).
      apply nth_error_Some. rewrite Hi. discriminate. }
    destruct (String_init_nth _ _ _ _ Hs Hlt) as (nm & Hnm & Hnth).
    rewrite Hi in Hnth. injection Hnth as ->. simpl.
    unfold FRETS in Hlt. split; [lia|]. split; [exact Hnm | reflexivity].
  - intros (Hf & Hnm & ->).
    assert (Hk : (Z.to_nat (fret n) < FRETS)%nat) by (unfold FRETS; lia).
    destruct (String_init_nth _ _ _ _ Hs Hk) as (nm & Hnm' & Hnth).
    rewrite Z2Nat.id in Hnm', Hnth by lia.
    rewrite Hnm in Hnm'. injection Hnm' as <-.
    eapply nth_error_In, Hnth.
Qed.

(** X3.  On a string, the octave partner of every note that is not at
    fret 11 is again a note of that string: the same name sits twelve
    frets away. *)
Theorem get_octave_on_string (idx : Z) (tun : string)
        (s : @GuitarString Effect) (n : @Note Effect) :
  String_init idx tun = Ok s ->
  In n (string_notes s) -> fret n <> 11 ->
  In (get_octave n) (string_notes s).
Proof.
  intros Hs Hn H11.
  apply (String_init_In _ _ _ _ Hs) in Hn as (Hf & Hnm & Hshape).
  apply (String_init_In _ _ _ _ Hs).
  unfold get_octave. simpl.
  destruct (12 <=? fret n) eqn:H12.
  - apply Z.leb_le in H12. split; [lia|]. split; [|rewrite Hshape at 1; reflexivity].
    rewrite <- (get_note_name_period tun (fret n - 12)).
    replace (fret n - 12 + 12) with (fret n) by lia. exact Hnm.
  - apply Z.leb_gt in H12. split; [lia|]. split; [|rewrite Hshape at 1; reflexivity].
    rewrite get_note_name_period. exact Hnm.
Qed.

End StringConstruction.

Lemma String_init_spec_witness :
  @String_init unit 6 EmptyString = Err IndexError /\
  @String_init unit 6 "H" = Err ValueError /\
  exists s : @GuitarString unit, String_init 6 "Eb" = Ok s.
Proof.
  destruct (@String_init_spec unit 6 EmptyString) as (H1 & _ & _).
  destruct (@String_init_spec unit 6 "H") as (_ & H2 & _).
  destruct (@String_init_spec unit 6 "Eb") as (_ & _ & H3).
  split; [apply H1; reflexivity|]. split; [apply H2; reflexivity|].
  destruct (H3 eq_refl) as (s & Hs & _). exists s. exact Hs.
Defined.

Lemma String_pitch_invariant_witness :
  exists (s : @GuitarString unit) (n : Note),
    String_init 6 "E" = Ok s /\
    nth_error (string_notes s) 3 = Some n /\
    notes.note_to_int (name n) = Ok 7.
Proof.
  destruct (@String_init unit 6 "E") as [s|e] eqn:Hs;
    [|vm_compute in Hs; discriminate Hs].
  destruct (String_pitch_invariant 6 "E" s 4 3 Hs) as (n & Hn & _ & _ & _ & Hpc).
  - reflexivity.
  - lia.
  - exists s, n. split; [reflexivity|]. split; [exact Hn | exact Hpc].
Defined.

Lemma get_octave_on_string_witness :
  exists s : @GuitarString unit,
    String_init 6 "E" = Ok s /\
    In (get_octave (Note_init 6 3 "G")) (string_notes s).
Proof.
  destruct (@String_init unit 6 "E") as [s|e] eqn:Hs;
    [|vm_compute in Hs; discriminate Hs].
  exists s. split; [reflexivity|].
  apply (get_octave_on_string 6 "E" s (Note_init 6 3 "G") Hs).
  - apply (String_init_In 6 "E" s _ Hs). simpl.
    split; [lia|]. split; reflexivity.
  - simpl. discriminate.
Defined.

(** ** Looking notes up on a string *)

Lemma filterM_filter {A : Type} (p : A -> result bool) (q : A -> bool)
      (l : list A) :
  (forall x, In x l -> p x = Ok (q x)) -> filterM p l = Ok (filter q l).
Proof.
  induction l as [|x t IH]; simpl; intros H; [reflexivity|].
  rewrite (H x (or_introl eq_refl)), IH by (intros y Hy; apply H; right; exact Hy).
  simpl. destruct (q x); reflexivity.
Qed.

Lemma anyM_existsb {A : Type} (p : A -> result bool) (q : A -> bool)
      (l : list A) :
  (forall x, In x l -> p x = Ok (q x)) -> anyM p l = Ok (existsb q l).
Proof.
  induction l as [|x t IH]; simpl; intros H; [reflexivity|].
  rewrite (H x (or_introl eq_refl)). simpl.
  destruct (q x); [reflexivity|].
  apply IH. intros y Hy. apply H. right. exact Hy.
Qed.

Lemma filterM_first_error {A : Type} (p : A -> result bool) (x : A)
      (t : list A) (e : exn) :
  p x = Err e -> filterM p (x :: t) = Err e.
Proof. intros H. simpl. rewrite H. reflexivity. Qed.

Lemma mapM_map {A B : Type} (f : A -> result B) (g : B -> A) (l : list A) :
  (forall x y, f x = Ok y -> g y = x) ->
  forall r, mapM f l = Ok r -> map g r = l.
Proof.
  intros Hg r H. apply mapM_Forall2 in H.
  induction H as [|x y l' r' Hxy _ IH]; simpl; [reflexivity|].
  rewrite (Hg _ _ Hxy), IH. reflexivity.
Qed.

Lemma py_range_sorted (n a : nat) :
  StronglySorted Z.lt (map Z.of_nat (seq a n)).
Proof.
  revert a. induction n as [|n IH]; intros a; simpl; constructor.
  - apply IH.
  - apply Forall_forall. intros y Hy.
    apply in_map_iff in Hy as (i & <- & Hi). apply in_seq in Hi. lia.
Qed.

Lemma filter_sorted {A : Type} (g : A -> Z) (q : A -> bool) (l : list A) :
  StronglySorted Z.lt (map g l) -> StronglySorted Z.lt (map g (filter q l)).
Proof.
  induction l as [|x t IH]; simpl; intros H; [constructor|].
  apply StronglySorted_inv in H as [Ht Hx].
  destruct (q x); simpl; [|apply IH, Ht].
  constructor; [apply IH, Ht|].
  rewrite Forall_forall in *. intros y Hy.
  apply in_map_iff in Hy as (z & <- & Hz). apply filter_In in Hz as [Hz _].
  apply Hx. apply in_map. exact Hz.
Qed.

Lemma is_enharmonic_valid (a b : string) (va vb : Z) :
  notes.note_to_int a = Ok va -> notes.note_to_int b = Ok vb ->
  notes.is_enharmonic a b = Ok (va =? vb).
Proof.
  intros Ha Hb. unfold notes.is_enharmonic. rewrite Ha, Hb. reflexivity.
Qed.

Lemma has_pitch_true (nm : string) (v : Z) :
  has_pitch nm v = true <-> notes.note_to_int nm = Ok v.
Proof.
  unfold has_pitch. destruct (notes.note_to_int nm) as [a|e]; split; intros H.
  - apply Z.eqb_eq in H. subst. reflexivity.
  - injection H as ->. apply Z.eqb_refl.
  - discriminate H.
  - discriminate H.
Qed.

Section StringSearch.
Context {Effect : Type}.

Lemma String_init_frets_sorted (idx : Z) (tun : string)
      (s : @GuitarString Effect) :
  String_init idx tun = Ok s ->
  map fret (string_notes s) = py_range FRETS.
Proof.
  intros H. apply String_init_fields in H as (_ & _ & H).
  eapply mapM_map; [|exact H].
  intros f n Hn. apply bind_Ok in Hn as (nm & _ & Hn).
  injection Hn as <-. reflexivity.
Qed.

Lemma String_init_enharmonic (idx : Z) (tun : string)
      (s : @GuitarString Effect) (k : string) (v : Z) (n : @Note Effect) :
  String_init idx tun = Ok s -> notes.note_to_int k = Ok v ->
  In n (string_notes s) ->
  Note_is_enharmonic n k = Ok (has_pitch (name n) v).
Proof.
  intros Hs Hk Hn.
  pose proof (String_init_names _ _ _ Hs) as Hv.
  rewrite Forall_forall in Hv. destruct (Hv _ Hn) as [w Hw].
  unfold Note_is_enharmonic, has_pitch.
  rewrite (is_enharmonic_valid _ _ _ _ Hw Hk), Hw. reflexivity.
Qed.

(** X4.  [string[name]] for a valid note name returns, in ascending fret
    order, exactly the notes of the string with the pitch class of that
    name; there is at least one and there are at most two. *)
Theorem getitem_name_spec (idx : Z) (tun : string) (s : @GuitarString Effect)
        (k : string) (v : Z) :
  String_init idx tun = Ok s ->
  notes.note_to_int k = Ok v ->
  exists r,
    getitem_name s k = Ok r /\
    (forall n, In n r <->
               In n (string_notes s) /\ notes.note_to_int (name n) = Ok v) /\
    StronglySorted Z.lt (map fret r) /\
    (1 <= List.length r <= 2)%nat.
Proof.
  intros Hs Hk.
  exists (filter (fun n => has_pitch (name n) v) (string_notes s)).
  assert (Hmem : forall n,
             In n (filter (fun n => has_pitch (name n) v) (string_notes s)) <->
             In n (string_notes s) /\ notes.note_to_int (name n) = Ok v).
  { intros n. rewrite filter_In, has_pitch_true. reflexivity. }
  assert (Hsorted : StronglySorted Z.lt
            (map fret (filter (fun n => has_pitch (name n) v) (string_notes s)))).
  { apply filter_sorted. rewrite (String_init_frets_sorted _ _ _ Hs).
    apply py_range_sorted. }
  split; [|split; [exact Hmem|split; [exact Hsorted|]]].
  - unfold getitem_name. apply filterM_filter.
    intros n Hn. apply (String_init_enharmonic _ _ _ _ _ _ Hs Hk Hn).
  - pose proof (note_to_int_range _ _ Hk) as Hv.
    assert (Hvalid : notes.is_valid_note tun = Ok true).
    { unfold String_init in Hs.
      destruct (notes.is_valid_note tun) as [[|]|e]; simpl in Hs;
        [reflexivity | discriminate Hs | discriminate Hs]. }
    destruct (is_valid_note_to_int _ Hvalid) as (sv & Hsv & Hsvr).
    split.
    + destruct (String_init_pitch idx tun s sv ((v - sv) mod 12) Hs Hsv)
        as (n & Hn & _ & _ & _ & Hpc).
      { pose proof (Z.mod_pos_bound (v - sv) 12). lia. }
      rewrite Z.add_mod_idemp_r in Hpc by lia.
      replace (sv + (v - sv)) with v in Hpc by lia.
      rewrite Z.mod_small in Hpc by lia.
      assert (Hin : In n (filter (fun n => has_pitch (name n) v)
                                 (string_notes s))).
      { apply Hmem. split; [eapply nth_error_In, Hn | exact Hpc]. }
      destruct (filter _ _); [contradiction | simpl; lia].
    + destruct (filter (fun n => has_pitch (name n) v) (string_notes s))
        as [|a [|b [|c t]]] eqn:E; simpl; try lia.
      exfalso.
      assert (Hpitch : forall n, In n [a; b; c] ->
                  0 <= fret n <= 22 /\ (sv + fret n) mod 12 = v).
      { intros n Hn.
        assert (Hn' : In n (a :: b :: c :: t)) by (simpl in *; tauto).
        apply Hmem in Hn' as [Hon Hpc].
        apply (String_init_In _ _ _ _ Hs) in Hon as (Hf & Hnm & _).
        split; [exact Hf|].
        destruct (get_note_name_Ok tun sv (fret n) Hsv) as (nm & Hnm' & Hpc').
        rewrite Hnm in Hnm'. injection Hnm' as <-.
        rewrite Hpc in Hpc'. injection Hpc' as Hv2. symmetry. exact Hv2. }
      destruct (Hpitch a) as [Ha Hma]; [simpl; tauto|].
      destruct (Hpitch b) as [Hb Hmb]; [simpl; tauto|].
      destruct (Hpitch c) as [Hc Hmc]; [simpl; tauto|].
      simpl in Hsorted.
      apply StronglySorted_inv in Hsorted as [Hs1 Hab].
      apply StronglySorted_inv in Hs1 as [_ Hbc].
      apply Forall_inv in Hab. apply Forall_inv in Hbc.
      pose proof (Z.div_mod (sv + fret a) 12).
      pose proof (Z.div_mod (sv + fret b) 12).
      pose proof (Z.div_mod (sv + fret c) 12).
      lia.
Qed.

(** X5.  [string[name]] for a name that mingus rejects raises the error
    of [note_to_int]: [NoteFormatError], or [IndexError] for the empty
    name. *)
Theorem getitem_name_error (idx : Z) (tun : string)
        (s : @GuitarString Effect) (k : string) (e : exn) :
  String_init idx tun = Ok s ->
  notes.note_to_int k = Err e ->
  getitem_name s k = Err e /\
  (e = NoteFormatError \/ (e = IndexError /\ k = EmptyString)).
Proof.
  intros Hs Hk. split.
  - assert (H0 : (0 < FRETS)%nat) by (unfold FRETS; lia).
    destruct (String_init_nth _ _ _ _ Hs H0) as (nm & Hnm & Hnth).
    destruct (string_notes s) as [|n0 t] eqn:E; [discriminate Hnth|].
    simpl in Hnth. injection Hnth as ->.
    unfold getitem_name. rewrite E. apply filterM_first_error.
    pose proof (String_init_names _ _ _ Hs) as Hv. rewrite E in Hv.
    apply Forall_inv in Hv as [w Hw].
    unfold Note_is_enharmonic, notes.is_enharmonic.
    rewrite Hw, Hk. reflexivity.
  - destruct k as [|c post]; [right|left].
    + vm_compute in Hk. injection Hk as <-. split; reflexivity.
    + unfold notes.note_to_int in Hk. simpl in Hk.
      destruct (notes.note_dict c) as [base|].
      * destruct (forallb notes.is_accidental (list_ascii_of_string post));
          [discriminate Hk | injection Hk as <-; reflexivity].
      * injection Hk as <-. reflexivity.
Qed.

End StringSearch.

Lemma getitem_name_spec_witness :
  exists (s : @GuitarString unit) (r : list Note),
    String_init 6 "E" = Ok s /\ getitem_name s "G" = Ok r /\
    (1 <= List.length r <= 2)%nat.
Proof.
  destruct (@String_init unit 6 "E") as [s|e] eqn:Hs;
    [|vm_compute in Hs; discriminate Hs].
  destruct (getitem_name_spec 6 "E" s "G" 7 Hs) as (r & Hr & _ & _ & Hlen).
  - reflexivity.
  - exists s, r. split; [reflexivity|]. split; assumption.
Defined.

Lemma getitem_name_error_witness :
  exists s : @GuitarString unit,
    String_init 6 "E" = Ok s /\ getitem_name s "H" = Err NoteFormatError.
Proof.
  destruct (@String_init unit 6 "E") as [s|e] eqn:Hs;
    [|vm_compute in Hs; discriminate Hs].
  exists s. split; [reflexivity|].
  apply (getitem_name_error 6 "E" s "H" NoteFormatError Hs). reflexivity.
Defined.

Section StringGetNotes.
Context {Effect : Type}.

Lemma get_notes_filter (idx : Z) (tun : string) (s : @GuitarString Effect)
      (note_list : list string) :
  String_init idx tun = Ok s ->
  Forall (fun q => exists v, notes.note_to_int q = Ok v) note_list ->
  get_notes s note_list
  = Ok (filter (fun n => existsb (same_pitch (name n)) note_list)
               (string_notes s)).
Proof.
  intros Hs Hvalid. unfold get_notes. apply filterM_filter.
  intros n Hn. apply anyM_existsb. intros q Hq.
  rewrite Forall_forall in Hvalid. destruct (Hvalid _ Hq) as [v Hv].
  pose proof (String_init_names _ _ _ Hs) as Hnames.
  rewrite Forall_forall in Hnames. destruct (Hnames _ Hn) as [w Hw].
  unfold Note_is_enharmonic, same_pitch.
  rewrite (is_enharmonic_valid _ _ _ _ Hw Hv), Hw, Hv. reflexivity.
Qed.

(** X6.  [String.get_notes(names)] for valid note names returns, in
    ascending fret order, exactly the notes of the string whose pitch
    class is that of one of the names. *)
Theorem get_notes_spec (idx : Z) (tun : string) (s : @GuitarString Effect)
        (note_list : list string) :
  String_init idx tun = Ok s ->
  Forall (fun q => exists v, notes.note_to_int q = Ok v) note_list ->
  exists r,
    get_notes s note_list = Ok r /\
    (forall n, In n r <->
               In n (string_notes s) /\
               exists q, In q note_list /\ same_pitch (name n) q = true) /\
    StronglySorted Z.lt (map fret r).
Proof.
  intros Hs Hvalid. eexists.
  split; [apply (get_notes_filter _ _ _ _ Hs Hvalid)|]. split.
  - intros n. rewrite filter_In, existsb_exists. reflexivity.
  - apply filter_sorted. rewrite (String_init_frets_sorted _ _ _ Hs).
    apply py_range_sorted.
Qed.

(** X7.  [String.get_notes] raises the error of mingus as soon as the
    first name of the list is not a note name, whatever follows it. *)
Theorem get_notes_error (idx : Z) (tun : string) (s : @GuitarString Effect)
        (q : string) (rest : list string) (e : exn) :
  String_init idx tun = Ok s ->
  notes.note_to_int q = Err e ->
  get_notes s (q :: rest) = Err e.
Proof.
  intros Hs Hq.
  assert (H0 : (0 < FRETS)%nat) by (unfold FRETS; lia).
  destruct (String_init_nth _ _ _ _ Hs H0) as (nm & Hnm & Hnth).
  destruct (string_notes s) as [|n0 t] eqn:E; [discriminate Hnth|].
  unfold get_notes. rewrite E. apply filterM_first_error.
  pose proof (String_init_names _ _ _ Hs) as Hv. rewrite E in Hv.
  apply Forall_inv in Hv as [w Hw].
  simpl. unfold Note_is_enharmonic, notes.is_enharmonic.
  rewrite Hw, Hq. reflexivity.
Qed.

End StringGetNotes.

Lemma get_notes_spec_witness :
  exists (s : @GuitarString unit) (r : list Note),
    String_init 6 "E" = Ok s /\ get_notes s ["G"; "Bb"] = Ok r /\
    StronglySorted Z.lt (map fret r).
Proof.
  destruct (@String_init unit 6 "E") as [s|e] eqn:Hs;
    [|vm_compute in Hs; discriminate Hs].
  destruct (get_notes_spec 6 "E" s ["G"; "Bb"] Hs) as (r & Hr & _ & Hsorted).
  - repeat constructor; eexists; reflexivity.
  - exists s, r. split; [reflexivity|]. split; assumption.
Defined.

Lemma get_notes_error_witness :
  exists s : @GuitarString unit,
    String_init 6 "E" = Ok s /\
    get_notes s ["H"; "G"] = Err NoteFormatError.
Proof.
  destruct (@String_init unit 6 "E") as [s|e] eqn:Hs;
    [|vm_compute in Hs; discriminate Hs].
  exists s. split; [reflexivity|].
  apply (get_notes_error 6 "E" s "H" ["G"] NoteFormatError Hs). reflexivity.
Defined.

(** ** Building a guitar *)


Lemma py_enumerate_length {A : Type} (l : list A) :
  forall a, List.length (py_enumerate a l) = List.length l.
Proof.
  induction l as [|x t IH]; intros a; simpl; [reflexivity|].
  rewrite IH. reflexivity.
Qed.



Section GuitarConstruction.
Context {Effect : Type}.



End GuitarConstruction.


(** ** The order of notes *)

Ltac note_lt_cases :=
  unfold Note_lt;
  repeat match goal with
         | |- context [?x <? ?y] => destruct (Z.ltb_spec x y)
         | |- context [?x =? ?y] => destruct (Z.eqb_spec x y)
         end;
  simpl; intros; try congruence; try lia.

Section NoteOrder.
Context {Effect : Type}.

Lemma Note_lt_asym (a b : @Note Effect) :
  Note_lt a b = true -> Note_lt b a = false.
Proof. note_lt_cases. Qed.

Lemma Note_lt_trans (a b c : @Note Effect) :
  Note_lt a b = true -> Note_lt b c = true -> Note_lt a c = true.
Proof. note_lt_cases. Qed.

Lemma Note_ge_trans (a b c : @Note Effect) :
  Note_lt b a = false -> Note_lt c b = false -> Note_lt c a = false.
Proof. note_lt_cases. Qed.

(** X9.  [<] on notes is a strict order on positions: irreflexive and
    transitive; two notes are unordered exactly when they share string
    and fret; a note on a string with a higher number precedes every note
    on a string with a lower number, and on one string the lower fret
    comes first. *)
Theorem Note_lt_strict_order (a b c : @Note Effect) :
  Note_lt a a = false /\
  (Note_lt a b = true -> Note_lt b c = true -> Note_lt a c = true) /\
  (Note_lt a b = false /\ Note_lt b a = false <->
   note_string a = note_string b /\ fret a = fret b) /\
  (note_string b < note_string a -> Note_lt a b = true) /\
  (note_string a = note_string b -> fret a < fret b -> Note_lt a b = true).
Proof.
  split; [note_lt_cases|].
  split; [apply Note_lt_trans|].
  split; [|split].
  - split.
    + note_lt_cases.
    + intros [Hs Hf]. apply Note_lt_irrefl_on_position; assumption.
  - note_lt_cases.
  - note_lt_cases.
Qed.

End NoteOrder.

Lemma Note_lt_strict_order_witness :
  Note_lt (@Note_init unit 6 0 "E") (Note_init 1 0 "E") = true.
Proof.
  destruct (Note_lt_strict_order (@Note_init unit 6 0 "E") (Note_init 1 0 "E")
                                 (Note_init 1 3 "G")) as (_ & _ & _ & H & _).
  apply H. simpl. lia.
Defined.

(** ** Sets of notes and sorting *)

Section SetFacts.
Context {Effect : Type}.
Variable hash : string -> Z.

Lemma set_mem_iff (x : @Note Effect) (s : list Note) :
  set_mem hash x s = true <->
  In (Note_hash hash x) (map (Note_hash hash) s).
Proof.
  unfold set_mem. rewrite existsb_exists, in_map_iff. split.
  - intros (y & Hy & E). exists y. unfold Note_eq in E.
    apply Z.eqb_eq in E. split; [symmetry; exact E | exact Hy].
  - intros (y & E & Hy). exists y. split; [exact Hy|].
    unfold Note_eq. apply Z.eqb_eq. symmetry. exact E.
Qed.

Lemma set_mem_In (x : @Note Effect) (s : list Note) :
  In x s -> set_mem hash x s = true.
Proof. intros H. apply set_mem_iff, in_map, H. Qed.

Lemma set_add_hashes (s : list (@Note Effect)) (x : Note) (h : Z) :
  In h (map (Note_hash hash) (set_add hash s x)) <->
  In h (map (Note_hash hash) s) \/ h = Note_hash hash x.
Proof.
  unfold set_add. destruct (set_mem hash x s) eqn:E.
  - apply set_mem_iff in E. split; [left; assumption|].
    intros [H| ->]; assumption.
  - rewrite map_app, in_app_iff. simpl. intuition.
Qed.

Lemma fold_set_add_hashes (l : list (@Note Effect)) :
  forall (acc : list Note) (h : Z),
    In h (map (Note_hash hash) (fold_left (set_add hash) l acc)) <->
    In h (map (Note_hash hash) acc) \/ In h (map (Note_hash hash) l).
Proof.
  induction l as [|x t IH]; intros acc h; simpl; [tauto|].
  rewrite IH, set_add_hashes. intuition.
Qed.

Lemma set_add_NoDup (s : list (@Note Effect)) (x : Note) :
  NoDup (map (Note_hash hash) s) ->
  NoDup (map (Note_hash hash) (set_add hash s x)).
Proof.
  intros H. unfold set_add. destruct (set_mem hash x s) eqn:E; [exact H|].
  rewrite map_app. simpl.
  eapply Permutation_NoDup; [apply Permutation_cons_append|].
  constructor; [|exact H].
  intros Hin. apply set_mem_iff in Hin. congruence.
Qed.

Lemma fold_set_add_NoDup (l : list (@Note Effect)) :
  forall acc, NoDup (map (Note_hash hash) acc) ->
              NoDup (map (Note_hash hash) (fold_left (set_add hash) l acc)).
Proof.
  induction l as [|x t IH]; intros acc H; simpl; [exact H|].
  apply IH, set_add_NoDup, H.
Qed.

Lemma fold_set_add_incl (l : list (@Note Effect)) :
  forall acc, incl (fold_left (set_add hash) l acc) (acc ++ l).
Proof.
  induction l as [|x t IH]; intros acc; simpl.
  - rewrite app_nil_r. apply incl_refl.
  - intros y Hy. apply IH in Hy. apply in_app_iff in Hy as [Hy|Hy].
    + unfold set_add in Hy. destruct (set_mem hash x acc).
      * apply in_app_iff. left. exact Hy.
      * apply in_app_iff in Hy as [Hy|[<-|[]]]; apply in_app_iff;
          [left; exact Hy | right; left; reflexivity].
    + apply in_app_iff. right. right. exact Hy.
Qed.


Lemma py_set_mem (x : @Note Effect) (l : list Note) :
  set_mem hash x (py_set hash l) = set_mem hash x l.
Proof.
  apply eq_true_iff_eq. rewrite !set_mem_iff. unfold py_set.
  rewrite fold_set_add_hashes. simpl. tauto.
Qed.

Lemma set_union_mem (x : @Note Effect) (a b : list Note) :
  set_mem hash x (set_union hash a b)
  = set_mem hash x a || set_mem hash x b.
Proof.
  apply eq_true_iff_eq. rewrite orb_true_iff, !set_mem_iff.
  unfold set_union. apply fold_set_add_hashes.
Qed.

Lemma set_mem_perm (x : @Note Effect) (l l' : list Note) :
  Permutation l l' -> set_mem hash x l = set_mem hash x l'.
Proof.
  intros P. apply eq_true_iff_eq. rewrite !set_mem_iff.
  split; apply Permutation_in, Permutation_map;
    [exact P | symmetry; exact P].
Qed.

Lemma issubset_iff (a b : list (@Note Effect)) :
  issubset hash a b = true <-> forall x, In x a -> set_mem hash x b = true.
Proof. unfold issubset. apply forallb_forall. Qed.

Lemma set_mem_subset (a b : list (@Note Effect)) (x : Note) :
  (forall y, In y a -> set_mem hash y b = true) ->
  set_mem hash x a = true -> set_mem hash x b = true.
Proof.
  intros Hsub Hx. apply set_mem_iff in Hx.
  apply in_map_iff in Hx as (y & E & Hy).
  specialize (Hsub y Hy). apply set_mem_iff in Hsub.
  apply set_mem_iff. rewrite <- E. exact Hsub.
Qed.

Lemma sorted_insert_perm (x : @Note Effect) (l : list Note) :
  Permutation (x :: l) (sorted_insert x l).
Proof.
  induction l as [|y t IH]; simpl; [apply Permutation_refl|].
  destruct (Note_lt y x); [|apply Permutation_refl].
  eapply perm_trans; [apply perm_swap|]. apply perm_skip, IH.
Qed.

Lemma py_sorted_perm (l : list (@Note Effect)) :
  Permutation l (py_sorted l).
Proof.
  induction l as [|x t IH]; simpl; [constructor|].
  eapply perm_trans; [apply perm_skip, IH | apply sorted_insert_perm].
Qed.

Lemma sorted_insert_sorted (x : @Note Effect) (l : list Note) :
  StronglySorted (fun a b => Note_lt b a = false) l ->
  StronglySorted (fun a b => Note_lt b a = false) (sorted_insert x l).
Proof.
  induction l as [|y t IH]; simpl; intros H.
  - repeat constructor.
  - apply StronglySorted_inv in H as [Ht Hy].
    destruct (Note_lt y x) eqn:E.
    + constructor; [apply IH, Ht|].
      eapply Permutation_Forall; [apply sorted_insert_perm|].
      constructor; [apply Note_lt_asym, E | exact Hy].
    + constructor; [constructor; assumption|].
      constructor; [exact E|].
      eapply Forall_impl; [|exact Hy].
      intros z Hz. simpl in Hz. eapply Note_ge_trans; eassumption.
Qed.

Lemma py_sorted_sorted (l : list (@Note Effect)) :
  StronglySorted (fun a b => Note_lt b a = false) (py_sorted l).
Proof.
  induction l as [|x t IH]; simpl; [constructor|].
  apply sorted_insert_sorted, IH.
Qed.


End SetFacts.

(** ** The algebra of forms *)

Section FormAlgebra.
Context {Effect : Type}.
Variable hash : string -> Z.

Lemma Form_add_notes (A B : @Form Effect) :
  exists r, Form_add hash A B = Ok r /\
            notes r = py_sorted (set_union hash (py_set hash (notes A))
                                           (py_set hash (notes B))).
Proof.
  unfold Form_add.
  destruct (option_string_eqb (key A) (key B));
    eexists; split; reflexivity.
Qed.

Lemma Form_add_mem (A B r : @Form Effect) (x : Note) :
  Form_add hash A B = Ok r ->
  set_mem hash x (notes r)
  = set_mem hash x (notes A) || set_mem hash x (notes B).
Proof.
  intros H. destruct (Form_add_notes A B) as (r' & Hr & Hn).
  rewrite H in Hr. injection Hr as <-. rewrite Hn.
  rewrite <- (set_mem_perm hash x _ _ (py_sorted_perm _)).
  rewrite set_union_mem, !py_set_mem. reflexivity.
Qed.

Lemma Form_add_NoDup (A B r : @Form Effect) :
  Form_add hash A B = Ok r -> NoDup (map (Note_hash hash) (notes r)).
Proof.
  intros H. destruct (Form_add_notes A B) as (r' & Hr & Hn).
  rewrite H in Hr. injection Hr as <-. rewrite Hn.
  eapply Permutation_NoDup;
    [apply Permutation_map, py_sorted_perm|].
  unfold set_union. apply fold_set_add_NoDup.
  unfold py_set. apply fold_set_add_NoDup. constructor.
Qed.

Lemma Form_add_sorted (A B r : @Form Effect) :
  Form_add hash A B = Ok r ->
  StronglySorted (fun a b => Note_lt b a = false) (notes r).
Proof.
  intros H. destruct (Form_add_notes A B) as (r' & Hr & Hn).
  rewrite H in Hr. injection Hr as <-. rewrite Hn.
  apply py_sorted_sorted.
Qed.

(** X10.  The union of two forms never fails, and its notes are: every
    note of either operand and nothing else, by [==]; taken from the
    operands; without two equal notes; in the order of [<], no note being
    followed by a smaller one. *)
Theorem Form_add_notes_spec (A B : @Form Effect) :
  exists r,
    Form_add hash A B = Ok r /\
    (forall x, set_mem hash x (notes r)
               = set_mem hash x (notes A) || set_mem hash x (notes B)) /\
    incl (notes r) (notes A ++ notes B) /\
    NoDup (map (Note_hash hash) (notes r)) /\
    StronglySorted (fun a b => Note_lt b a = false) (notes r).
Proof.
  destruct (Form_add_notes A B) as (r & Hr & Hn).
  exists r. split; [exact Hr|].
  split; [intros x; apply (Form_add_mem A B r x Hr)|].
  split; [|split; [apply (Form_add_NoDup A B r Hr) |
                   apply (Form_add_sorted A B r Hr)]].
  rewrite Hn. intros x Hx.
  apply (Permutation_in x (Permutation_sym (py_sorted_perm _))) in Hx.
  unfold set_union in Hx. apply fold_set_add_incl in Hx.
  apply in_app_iff in Hx as [Hx|Hx];
    apply (fold_set_add_incl hash) in Hx; simpl in Hx;
    apply in_app_iff; [left | right]; exact Hx.
Qed.

(** X11.  On the notes they hold, unions are commutative, associative
    and idempotent. *)
Theorem Form_add_laws (A B C : @Form Effect) :
  (exists ab ba,
      Form_add hash A B = Ok ab /\ Form_add hash B A = Ok ba /\
      same_notes hash (notes ab) (notes ba)) /\
  (exists ab ab_c bc a_bc,
      Form_add hash A B = Ok ab /\ Form_add hash ab C = Ok ab_c /\
      Form_add hash B C = Ok bc /\ Form_add hash A bc = Ok a_bc /\
      same_notes hash (notes ab_c) (notes a_bc)) /\
  (exists aa,
      Form_add hash A A = Ok aa /\ same_notes hash (notes aa) (notes A)).
Proof.
  split; [|split].
  - destruct (Form_add_notes A B) as (ab & Hab & _).
    destruct (Form_add_notes B A) as (ba & Hba & _).
    exists ab, ba. split; [exact Hab|]. split; [exact Hba|].
    intros x. rewrite (Form_add_mem _ _ _ x Hab), (Form_add_mem _ _ _ x Hba).
    apply orb_comm.
  - destruct (Form_add_notes A B) as (ab & Hab & _).
    destruct (Form_add_notes ab C) as (ab_c & Habc & _).
    destruct (Form_add_notes B C) as (bc & Hbc & _).
    destruct (Form_add_notes A bc) as (a_bc & Habc' & _).
    exists ab, ab_c, bc, a_bc. repeat (split; [assumption|]).
    intros x.
    rewrite (Form_add_mem _ _ _ x Habc), (Form_add_mem _ _ _ x Hab),
      (Form_add_mem _ _ _ x Habc'), (Form_add_mem _ _ _ x Hbc).
    symmetry. apply orb_assoc.
  - destruct (Form_add_notes A A) as (aa & Haa & _).
    exists aa. split; [exact Haa|].
    intros x. rewrite (Form_add_mem _ _ _ x Haa). apply orb_diag.
Qed.




Lemma Form_contains_iff (self lick : @Form Effect) :
  Form_contains hash self lick = true <->
  forall x, In x (notes lick) -> set_mem hash x (notes self) = true.
Proof.
  unfold Form_contains, issuperset. rewrite issubset_iff. split.
  - intros H x Hx.
    rewrite <- py_set_mem.
    apply (set_mem_subset hash (py_set hash (notes lick)) _ x H).
    rewrite py_set_mem. apply set_mem_In, Hx.
  - intros H x Hx. rewrite py_set_mem. apply H.
    unfold py_set in Hx. apply fold_set_add_incl in Hx. exact Hx.
Qed.

(** X13.  [contains] agrees with [in]: a form contains a lick exactly
    when every note of the lick is [in] the form. *)
Theorem Form_contains_spec (self lick : @Form Effect) :
  Form_contains hash self lick
  = forallb (Lick_contains hash self) (notes lick).
Proof.
  apply eq_true_iff_eq. rewrite Form_contains_iff, forallb_forall.
  reflexivity.
Qed.

(** X14.  [contains] is reflexive and transitive, and two forms contain
    each other exactly when they hold the same notes. *)
Theorem Form_contains_order (A B C : @Form Effect) :
  Form_contains hash A A = true /\
  (Form_contains hash A B = true -> Form_contains hash B C = true ->
   Form_contains hash A C = true) /\
  (Form_contains hash A B = true /\ Form_contains hash B A = true <->
   same_notes hash (notes A) (notes B)).
Proof.
  split; [|split].
  - apply Form_contains_iff. intros x Hx. apply set_mem_In, Hx.
  - rewrite !Form_contains_iff. intros HAB HBC x Hx.
    apply (set_mem_subset hash (notes B) (notes A) x HAB).
    apply HBC, Hx.
  - rewrite !Form_contains_iff. unfold same_notes. split.
    + intros [HAB HBA] x. apply eq_true_iff_eq. split.
      * apply (set_mem_subset hash _ _ x HBA).
      * apply (set_mem_subset hash _ _ x HAB).
    + intros H. split; intros x Hx.
      * rewrite H. apply set_mem_In, Hx.
      * rewrite <- H. apply set_mem_In, Hx.
Qed.

(** X15.  The union contains both operands, and every form that contains
    both operands contains the union. *)
Theorem Form_add_least_upper_bound (A B : @Form Effect) :
  exists r,
    Form_add hash A B = Ok r /\
    Form_contains hash r A = true /\ Form_contains hash r B = true /\
    forall C, Form_contains hash C A = true ->
              Form_contains hash C B = true ->
              Form_contains hash C r = true.
Proof.
  destruct (Form_add_notes A B) as (r & Hr & _).
  exists r. split; [exact Hr|]. split; [|split].
  - apply Form_contains_iff. intros x Hx.
    rewrite (Form_add_mem A B r x Hr), (set_mem_In hash x _ Hx). reflexivity.
  - apply Form_contains_iff. intros x Hx.
    rewrite (Form_add_mem A B r x Hr), (set_mem_In hash x _ Hx).
    apply orb_true_r.
  - intros C. rewrite !Form_contains_iff. intros HA HB x Hx.
    apply set_mem_In with (hash := hash) in Hx.
    rewrite (Form_add_mem A B r x Hr) in Hx.
    apply orb_true_iff in Hx as [Hx|Hx].
    + apply (set_mem_subset hash _ _ x HA Hx).
    + apply (set_mem_subset hash _ _ x HB Hx).
Qed.

Lemma join_forms_fold (rest : list (@Form Effect)) :
  forall a : @Form Effect,
  exists r,
    fold_left (fun acc g => c <- acc ;; Form_add hash c g) rest (Ok a) = Ok r /\
    forall x, set_mem hash x (notes r)
              = set_mem hash x (notes a)
                || existsb (fun g => set_mem hash x (notes g)) rest.
Proof.
  induction rest as [|g t IH]; intros a; simpl.
  - exists a. split; [reflexivity|]. intros x. rewrite orb_false_r. reflexivity.
  - destruct (Form_add_notes a g) as (ag & Hag & _). rewrite Hag.
    destruct (IH ag) as (r & Hr & Hmem).
    exists r. split; [exact Hr|].
    intros x. rewrite Hmem, (Form_add_mem a g ag x Hag), orb_assoc.
    reflexivity.
Qed.

(** X16.  [join_forms] raises [TypeError] on an empty sequence; on any
    other sequence it succeeds, and a note is in the result exactly when
    it is in one of the forms. *)
Theorem join_forms_spec :
  @join_forms Effect hash [] = Err TypeError /\
  forall (f : @Form Effect) (rest : list Form),
  exists r,
    join_forms hash (f :: rest) = Ok r /\
    forall x, set_mem hash x (notes r)
              = existsb (fun g => set_mem hash x (notes g)) (f :: rest).
Proof.
  split; [reflexivity|]. intros f rest. simpl.
  destruct (join_forms_fold rest f) as (r & Hr & Hmem).
  exists r. split; [exact Hr | exact Hmem].
Qed.

End FormAlgebra.

Lemma Form_contains_order_witness :
  Form_contains str_code
    (mkForm [@Note_init unit 4 5 "G"; Note_init 5 10 "G"] None None None None
            EmptyString)
    (mkForm [Note_init 5 10 "G"] None None None None EmptyString) = true.
Proof.
  destruct (Form_contains_order str_code
     (mkForm [@Note_init unit 4 5 "G"; Note_init 5 10 "G"] None None None None
             EmptyString)
     (mkForm [@Note_init unit 4 5 "G"; Note_init 5 10 "G"] None None None None
             EmptyString)
     (mkForm [@Note_init unit 5 10 "G"] None None None None EmptyString))
    as (_ & Htrans & _).
  apply Htrans; reflexivity.
Defined.

Lemma Form_add_least_upper_bound_witness :
  exists r : @Form unit,
    Form_add str_code
      (mkForm [Note_init 4 5 "G"] None None (Some "G") (Some "Locrian") "D")
      (mkForm [Note_init 5 10 "G"] None None (Some "G") (Some "Locrian") "A")
    = Ok r /\
    Form_contains str_code
      (mkForm [Note_init 5 10 "G"; Note_init 4 5 "G"; Note_init 6 3 "G"]
              None None None None EmptyString) r = true.
Proof.
  destruct (Form_add_least_upper_bound str_code
      (mkForm [@Note_init unit 4 5 "G"] None None (Some "G") (Some "Locrian") "D")
      (mkForm [Note_init 5 10 "G"] None None (Some "G") (Some "Locrian") "A"))
    as (r & Hr & _ & _ & Hlub).
  exists r. split; [exact Hr|].
  apply Hlub; reflexivity.
Defined.

(** ** Errors and floors of [calculate_form] *)

Lemma py_next_ext {A : Type} (p q : A -> bool) (l : list A) :
  (forall x, In x l -> p x = q x) -> py_next p l = py_next q l.
Proof.
  induction l as [|x t IH]; simpl; intros H; [reflexivity|].
  rewrite (H x (or_introl eq_refl)), IH; [reflexivity|].
  intros y Hy. apply H. right. exact Hy.
Qed.

Lemma mapM_ext {A B : Type} (f g : A -> result B) (l : list A) :
  (forall x, In x l -> f x = g x) -> mapM f l = mapM g l.
Proof.
  induction l as [|x t IH]; simpl; intros H; [reflexivity|].
  rewrite (H x (or_introl eq_refl)), IH; [reflexivity|].
  intros y Hy. apply H. right. exact Hy.
Qed.

Section Floors.
Context {Effect : Type}.

Lemma root_forms_KeyError (strings : list (@GuitarString Effect))
      (form : string) :
  ~ In form form_letters -> root_forms strings form = Err KeyError.
Proof.
  intros H. unfold root_forms, form_letters in *. simpl in H.
  repeat match goal with
         | |- context [String.eqb form ?c] =>
             destruct (String.eqb_spec form c);
             [exfalso; apply H; subst form; tauto|]
         end.
  reflexivity.
Qed.

Lemma getitem_name_raises (idx : Z) (tun : string)
      (s : @GuitarString Effect) (k : string) (e : exn) :
  String_init idx tun = Ok s ->
  notes.note_to_int k = Err e ->
  getitem_name s k = Err e.
Proof.
  intros Hs Hk.
  assert (H0 : (0 < FRETS)%nat) by (unfold FRETS; lia).
  destruct (String_init_nth _ _ _ _ Hs H0) as (nm & Hnm & Hnth).
  destruct (string_notes s) as [|n0 t] eqn:E; [discriminate Hnth|].
  unfold getitem_name. rewrite E. apply filterM_first_error.
  pose proof (String_init_names _ _ _ Hs) as Hv. rewrite E in Hv.
  apply Forall_inv in Hv as [w Hw].
  unfold Note_is_enharmonic, notes.is_enharmonic.
  rewrite Hw, Hk. reflexivity.
Qed.

Lemma find_roots_floor (strings : list (@GuitarString Effect))
      (form k : string) (j : Z) :
  Forall frets_in_range strings -> j <= 0 ->
  find_roots strings form k j = find_roots strings form k 0.
Proof.
  intros Hstr Hj. unfold find_roots.
  destruct (root_forms strings form) as [anchors|e] eqn:Ha; [|reflexivity].
  cbn [bind].
  destruct (py_index anchors 0) as [primary|e] eqn:Hp; [|reflexivity].
  cbn [bind].
  destruct (getitem_name primary k) as [on_primary|e] eqn:Ho; [|reflexivity].
  cbn [bind].
  rewrite (py_next_ext (fun n => j <=? fret n) (fun n => 0 <=? fret n));
    [reflexivity|].
  intros n Hn. apply filterM_incl in Ho. apply Ho in Hn.
  apply py_index_In in Hp. apply root_forms_incl in Ha.
  rewrite Forall_forall in Ha, Hstr.
  specialize (Hstr _ (Ha _ Hp)). unfold frets_in_range in Hstr.
  rewrite Forall_forall in Hstr. specialize (Hstr _ Hn).
  assert (H1 : (j <=? fret n) = true) by (apply Z.leb_le; lia).
  assert (H2 : (0 <=? fret n) = true) by (apply Z.leb_le; lia).
  rewrite H1, H2. reflexivity.
Qed.

Lemma attempt_floor (k : string) (sc : Scale) (form : string) (j : Z) :
  j <= 0 -> @attempt Effect k sc form j = attempt k sc form 0.
Proof.
  intros Hj. unfold attempt.
  destruct (@make_strings Effect) as [strings|e] eqn:Hs; [|reflexivity].
  cbn [bind].
  pose proof (make_strings_frets _ Hs) as Hstr.
  rewrite (find_roots_floor strings form k j Hstr Hj).
  destruct (find_roots strings form k 0) as [roots|e]; [|reflexivity].
  cbn [bind].
  destruct (ascending sc k) as [scale_notes|e]; [|reflexivity].
  cbn [bind].
  destruct (py_index strings 5) as [low|e] eqn:Hl; [|reflexivity].
  cbn [bind].
  destruct (get_notes low scale_notes) as [candidates|e] eqn:Hc;
    [|reflexivity].
  cbn [bind].
  rewrite (py_next_ext (fun n => j <=? fret n) (fun n => 0 <=? fret n));
    [reflexivity|].
  intros n Hn. apply filterM_incl in Hc. apply Hc in Hn.
  apply py_index_In in Hl. rewrite Forall_forall in Hstr.
  specialize (Hstr _ Hl). unfold frets_in_range in Hstr.
  rewrite Forall_forall in Hstr. specialize (Hstr _ Hn).
  assert (H1 : (j <=? fret n) = true) by (apply Z.leb_le; lia).
  assert (H2 : (0 <=? fret n) = true) by (apply Z.leb_le; lia).
  rewrite H1, H2. reflexivity.
Qed.

Variable hash : string -> Z.

(** X17.  A form letter other than C, A, G, E and D makes
    [calculate_form] raise [KeyError], whatever the key, the scale and
    the floor. *)
Theorem calculate_form_KeyError (fuel : nat) (k : string) (sc : Scale)
        (form : string) (form_start : Z) (transpose : bool) :
  ~ In form form_letters ->
  @calculate_form Effect hash (S fuel) k sc form form_start transpose
  = Some (Err KeyError).
Proof.
  intros Hform. apply calculate_form_raise.
  unfold attempt.
  destruct (@make_strings_Ok Effect) as (strings & Hs & _).
  rewrite Hs. cbn [bind]. unfold find_roots.
  rewrite (root_forms_KeyError strings form Hform). reflexivity.
Qed.

(** X18.  With a valid form letter, a key that is not a note name makes
    [calculate_form] raise the error of mingus ([NoteFormatError], or
    [IndexError] for the empty key) in the search for the roots, before
    the scale provider is called. *)
Theorem calculate_form_bad_key (fuel : nat) (k : string) (sc : Scale)
        (form : string) (form_start : Z) (transpose : bool) (e : exn) :
  In form form_letters ->
  notes.note_to_int k = Err e ->
  @calculate_form Effect hash (S fuel) k sc form form_start transpose
  = Some (Err e).
Proof.
  intros Hform Hk. apply calculate_form_raise.
  unfold attempt.
  destruct (@make_strings_Ok Effect) as (strings & Hs & Hlen).
  rewrite Hs. cbn [bind]. unfold find_roots.
  destruct (root_forms_Ok strings form Hlen Hform)
    as (primary & others & Hr & Hin).
  rewrite Hr. cbn [bind].
  change (py_index (primary :: others) 0) with (Ok primary). cbn [bind].
  pose proof (make_strings_inits _ Hs) as Hinit.
  rewrite Forall_forall in Hinit.
  destruct (Hinit _ Hin) as (idx & tun & Hp).
  rewrite (getitem_name_raises idx tun primary k e Hp Hk). reflexivity.
Qed.


End Floors.

Lemma calculate_form_KeyError_witness :
  @calculate_form unit str_code 1 "G" Locrian "F" 0 false
  = Some (Err KeyError).
Proof.
  apply (@calculate_form_KeyError unit str_code 0 "G" Locrian "F" 0 false).
  unfold form_letters. simpl.
  intros [H|[H|[H|[H|[H|[]]]]]]; discriminate H.
Defined.

Lemma calculate_form_bad_key_witness :
  @calculate_form unit str_code 1 "H" Locrian "D" 0 false
  = Some (Err NoteFormatError).
Proof.
  apply (@calculate_form_bad_key unit str_code 0 "H" Locrian "D" 0 false).
  - unfold form_letters. simpl. tauto.
  - reflexivity.
Defined.


(** ** What a synthesized form is made of *)

Lemma min_from_In {A : Type} (k : A -> Z) (l : list A) :
  forall best, In (min_from k best l) (best :: l).
Proof.
  induction l as [|x t IH]; intros best; simpl; [left; reflexivity|].
  destruct (IH (if k x <? k best then x else best)) as [H|H].
  - destruct (k x <? k best); [right; left | left]; exact H.
  - right. right. exact H.
Qed.

Lemma py_min_In {A : Type} (k : A -> Z) (l : list A) (x : A) :
  py_min k l = Ok x -> In x l.
Proof.
  destruct l as [|y t]; simpl; intros H; [discriminate H|].
  injection H as <-. apply min_from_In.
Qed.

Lemma py_pop_app {A : Type} (l : list A) :
  forall t x, py_pop l = Ok (t, x) -> l = t ++ [x].
Proof.
  induction l as [|y l' IH]; intros t x H; [discriminate H|].
  destruct l' as [|z l''].
  - simpl in H. injection H as <- <-. reflexivity.
  - change (py_pop (y :: z :: l''))
      with (p <- py_pop (z :: l'') ;;
            match p with (t', last) => Ok (y :: t', last) end) in H.
    apply bind_Ok in H as ([t' last] & Hp & H).
    injection H as <- <-. rewrite (IH _ _ Hp). reflexivity.
Qed.

Section WalkInvariant.
Context {Effect : Type}.
Variable strings : list (@GuitarString Effect).

Lemma on_board_index (i : Z) (s : @GuitarString Effect) (n : Note) :
  py_index strings i = Ok s -> In n (string_notes s) -> on_board strings n.
Proof.
  intros Hs Hn. exists s. split; [eapply py_index_In, Hs | exact Hn].
Qed.

Lemma scan_on_board (i : Z) (cands : list (@Note Effect)) :
  forall (nl : list Note) (st : Z) (r : list Note * Z),
    scan strings i cands nl st = Ok r ->
    Forall (on_board strings) cands -> Forall (on_board strings) nl ->
    Forall (on_board strings) (fst r).
Proof.
  induction cands as [|note rest IH]; intros nl st r H Hc Hnl; simpl in H.
  - injection H as <-. exact Hnl.
  - apply Forall_cons_iff in Hc as [Hnote Hrest].
    destruct (fret note <=? st); [apply (IH _ _ _ H Hrest Hnl)|].
    apply bind_Ok in H as (higher & Hh & H).
    apply bind_Ok in H as (on_higher & Hoh & H).
    apply bind_Ok in H as (hsn & Hmin & H).
    destruct (3 <? fret note - st).
    + injection H as <-. simpl. apply Forall_app. split; [exact Hnl|].
      constructor; [|constructor].
      apply (on_board_index _ _ _ Hh).
      apply (filterM_incl _ _ _ Hoh), (py_min_In _ _ _ Hmin).
    + apply (IH _ _ _ H Hrest). apply Forall_app. split; [exact Hnl|].
      constructor; [exact Hnote | constructor].
Qed.

Lemma drop_below_on_board (st : Z) (nl : list (@Note Effect)) :
  forall r, drop_below st nl = Ok r ->
            Forall (on_board strings) nl -> Forall (on_board strings) r.
Proof.
  induction nl as [|n t IH]; intros r H Hnl; simpl in H; [discriminate H|].
  destruct (fret n <? st).
  - apply Forall_cons_iff in Hnl as [_ Ht]. apply (IH _ H Ht).
  - injection H as <-. exact Hnl.
Qed.

Lemma close_shape_on_board (nl : list (@Note Effect)) (st : Z)
      (r : list Note) :
  close_shape strings nl st = Ok r ->
  Forall (on_board strings) nl -> Forall (on_board strings) r.
Proof.
  unfold close_shape. intros H Hnl.
  apply bind_Ok in H as (l1 & H1 & H).
  apply bind_Ok in H as ([l2 removed] & Hpop & H). cbn [fst snd] in H.
  apply bind_Ok in H as (head & Hhead & H).
  apply bind_Ok in H as (l3 & H3 & H).
  apply bind_Ok in H as (mirrored & Hm & H).
  injection H as <-.
  pose proof (drop_below_on_board _ _ _ H1 Hnl) as Hl1.
  rewrite (py_pop_app _ _ _ Hpop) in Hl1.
  apply Forall_app in Hl1 as [Hl2 _].
  assert (Hl3 : Forall (on_board strings) l3).
  { destruct (negb (fret head =? fret removed)).
    - apply bind_Ok in H3 as (low & Hlow & H3).
      apply bind_Ok in H3 as (n & Hn & H3).
      injection H3 as <-. constructor; [|exact Hl2].
      apply (on_board_index _ _ _ Hlow), (py_index_In _ _ _ Hn).
    - injection H3 as <-. exact Hl2. }
  apply Forall_app. split; [exact Hl3|].
  eapply mapM_incl; [|exact Hm].
  intros note n Hn. cbv beta in Hn.
  apply bind_Ok in Hn as (high & Hhigh & Hn).
  apply (on_board_index _ _ _ Hhigh), (py_index_In _ _ _ Hn).
Qed.

Lemma walk_on_board (scale_notes : list string)
      (todo : list (@GuitarString Effect)) :
  forall (nl : list Note) (st : Z) (r : list Note),
    walk strings scale_notes todo nl st = Ok r ->
    incl todo strings ->
    Forall (on_board strings) nl -> Forall (on_board strings) r.
Proof.
  induction todo as [|s rest IH]; intros nl st r H Hin Hnl; simpl in H.
  - injection H as <-. exact Hnl.
  - destruct (index s =? 1); [apply (close_shape_on_board _ _ _ H Hnl)|].
    apply bind_Ok in H as (cands & Hc & H).
    apply bind_Ok in H as (p & Hscan & H).
    apply (IH _ _ _ H).
    + intros x Hx. apply Hin. right. exact Hx.
    + apply (scan_on_board _ _ _ _ _ Hscan); [|exact Hnl].
      apply Forall_forall. intros n Hn. exists s.
      split; [apply Hin; left; reflexivity|].
      apply (filterM_incl _ _ _ Hc), Hn.
Qed.

End WalkInvariant.

Section Synthesis.
Context {Effect : Type}.

Lemma attempt_on_board (k : string) (sc : Scale) (form : string) (j : Z)
      (roots nl : list (@Note Effect)) :
  attempt k sc form j = Ok (roots, nl) ->
  exists strings,
    make_strings = Ok strings /\
    find_roots strings form k j = Ok roots /\
    Forall (on_board strings) nl.
Proof.
  unfold attempt. intros H.
  apply bind_Ok in H as (strings & Hs & H).
  apply bind_Ok in H as (roots' & Hr & H).
  apply bind_Ok in H as (scale_notes & _ & H).
  apply bind_Ok in H as (low & Hlow & H).
  apply bind_Ok in H as (candidates & Hc & H).
  apply bind_Ok in H as (first & Hfirst & H).
  apply bind_Ok in H as (notes_list & Hw & H).
  injection H as <- <-.
  exists strings. split; [exact Hs|]. split; [exact Hr|].
  apply (walk_on_board strings _ _ _ _ _ Hw).
  - intros s Hin. apply in_rev in Hin. exact Hin.
  - constructor; [|constructor].
    apply (on_board_index _ _ _ _ Hlow).
    apply (filterM_incl _ _ _ Hc). apply py_next_Ok in Hfirst. apply Hfirst.
Qed.

Lemma make_strings_indexes (strings : list (@GuitarString Effect)) :
  make_strings = Ok strings ->
  Forall (fun s => 1 <= index s <= 6) strings.
Proof.
  intros H. unfold make_strings in H.
  assert (Hmap : map (fun s : @GuitarString Effect => (index s, tuning s))
                     strings
                 = py_enumerate 1 (chars "EBGDAE")).
  { eapply mapM_map; [|exact H].
    intros p s Hs. apply String_init_fields in Hs as (Hi & Ht & _).
    rewrite Hi, Ht. destruct p; reflexivity. }
  apply Forall_forall. intros s Hs.
  apply (in_map (fun s : @GuitarString Effect => (index s, tuning s))) in Hs.
  rewrite Hmap in Hs. simpl in Hs.
  repeat (destruct Hs as [Hs|Hs]; [injection Hs as Hs _; lia|]).
  contradiction.
Qed.

Lemma on_board_position (strings : list (@GuitarString Effect)) (n : Note) :
  make_strings = Ok strings -> on_board strings n ->
  1 <= note_string n <= 6 /\ 0 <= fret n <= 22 /\ effect n = None.
Proof.
  intros Hs (s & Hin & Hn).
  pose proof (make_strings_indexes _ Hs) as Hidx.
  pose proof (make_strings_inits _ Hs) as Hinit.
  rewrite Forall_forall in Hidx, Hinit.
  destruct (Hinit _ Hin) as (idx & tun & Hp).
  pose proof (String_init_fields _ _ _ Hp) as (Hi & _ & _).
  apply (String_init_In _ _ _ _ Hp) in Hn as (Hf & _ & Hshape).
  rewrite Hshape. simpl. specialize (Hidx _ Hin). rewrite Hi in Hidx.
  split; [exact Hidx|]. split; [exact Hf | reflexivity].
Qed.

Variable hash : string -> Z.

Lemma roots_covered_iff (roots nl : list (@Note Effect)) :
  roots_covered hash roots nl = true <->
  forall r, In r roots -> set_mem hash r nl = true.
Proof.
  unfold roots_covered. rewrite issubset_iff. split.
  - intros H x Hx. rewrite <- (py_set_mem hash).
    apply (set_mem_subset hash (py_set hash roots) _ x H).
    rewrite py_set_mem. apply set_mem_In, Hx.
  - intros H x Hx. rewrite py_set_mem. apply H.
    unfold py_set in Hx. apply fold_set_add_incl in Hx. exact Hx.
Qed.

Lemma calculate_form_accepted (fuel : nat) (k : string) (sc : Scale)
      (form : string) :
  forall (form_start : Z) (f : @Form Effect),
    calculate_form hash fuel k sc form form_start false = Some (Ok f) ->
    exists j roots,
      form_start <= j /\
      attempt k sc form j = Ok (roots, notes f) /\
      roots_covered hash roots (notes f) = true /\
      f = mkForm (notes f) None None (Some k) (Some (scale_name sc)) form.
Proof.
  induction fuel as [|fuel IH]; intros form_start f H; [discriminate H|].
  simpl in H.
  destruct (attempt k sc form form_start) as [[roots nl]|e] eqn:Ha;
    [|discriminate H].
  destruct (roots_covered hash roots nl) eqn:Hc; simpl in H.
  - injection H as <-. exists form_start, roots. simpl.
    split; [lia|]. split; [exact Ha|]. split; [exact Hc | reflexivity].
  - destruct (IH _ _ H) as (j & roots' & Hj & Hrest).
    exists j, roots'. split; [lia | exact Hrest].
Qed.

(** X20.  A form that [calculate_form] returns is labelled with the key,
    the name of the scale and the form letter.  Each of its notes is a
    note of one of the six strings: string 1 to 6, fret 0 to 22, the name
    the string gives to that fret, no effect.  It was accepted at a floor
    between [form_start] and 22, and it contains every root found at that
    floor. *)
Theorem calculate_form_result (fuel : nat) (k : string) (sc : Scale)
        (form : string) (form_start : Z) (f : @Form Effect) :
  calculate_form hash fuel k sc form form_start false = Some (Ok f) ->
  key f = Some k /\ scale f = Some (scale_name sc) /\ forms f = form /\
  Forall (fun n => 1 <= note_string n <= 6 /\ 0 <= fret n <= 22 /\
                   effect n = None) (notes f) /\
  exists strings j roots,
    make_strings = Ok strings /\
    Forall (on_board strings) (notes f) /\
    form_start <= j <= 22 /\
    find_roots strings form k j = Ok roots /\
    (forall r, In r roots -> set_mem hash r (notes f) = true).
Proof.
  intros H.
  destruct (calculate_form_accepted _ _ _ _ _ _ H)
    as (j & roots & Hj & Ha & Hc & Hf).
  destruct (attempt_on_board _ _ _ _ _ _ Ha) as (strings & Hs & Hr & Hon).
  rewrite Hf. cbn [key scale forms notes].
  split; [reflexivity|]. split; [reflexivity|]. split; [reflexivity|].
  split.
  - eapply Forall_impl; [|exact Hon].
    intros n Hn. apply (on_board_position strings n Hs Hn).
  - exists strings, j, roots. split; [exact Hs|]. split; [exact Hon|].
    split; [split; [exact Hj | apply (attempt_bound _ _ _ _ _ Ha)]|].
    split; [exact Hr|]. apply roots_covered_iff, Hc.
Qed.

End Synthesis.

Lemma calculate_form_result_witness :
  exists f : @Form unit,
    calculate_form str_code 6 "G" Locrian "D" 0 false = Some (Ok f) /\
    key f = Some "G" /\
    Forall (fun n => 1 <= note_string n <= 6 /\ 0 <= fret n <= 22 /\
                     effect n = None) (notes f).
Proof.
  destruct (@calculate_form unit str_code 6 "G" Locrian "D" 0 false)
    as [[f|e]|] eqn:H;
    [ | vm_compute in H; discriminate H | vm_compute in H; discriminate H ].
  exists f. split; [reflexivity|].
  destruct (calculate_form_result str_code 6 "G" Locrian "D" 0 f H)
    as (Hk & _ & _ & Hpos & _).
  split; assumption.
Defined.

(** ** The roots of a form *)

Lemma filterM_true {A : Type} (p : A -> result bool) (l : list A) :
  forall r, filterM p l = Ok r -> forall x, In x r -> p x = Ok true.
Proof.
  induction l as [|y t IH]; simpl; intros r H x Hx.
  - injection H as <-. contradiction.
  - apply bind_Ok in H as (b & Hb & H).
    apply bind_Ok in H as (r' & Hr' & H).
    injection H as <-. destruct b.
    + destruct Hx as [<-|Hx]; [exact Hb | apply (IH _ Hr' _ Hx)].
    + apply (IH _ Hr' _ Hx).
Qed.

Lemma filterM_complete {A : Type} (p : A -> result bool) (l : list A) :
  forall r, filterM p l = Ok r ->
            forall x, In x l -> p x = Ok true -> In x r.
Proof.
  induction l as [|y t IH]; simpl; intros r H x Hx Hp; [contradiction|].
  apply bind_Ok in H as (b & Hb & H).
  apply bind_Ok in H as (r' & Hr' & H).
  injection H as <-. destruct Hx as [->|Hx].
  - rewrite Hp in Hb. injection Hb as <-. left. reflexivity.
  - destruct b; [right|]; apply (IH _ Hr' _ Hx Hp).
Qed.

Lemma filterM_sorted {A : Type} (p : A -> result bool) (g : A -> Z)
      (l : list A) :
  forall r, filterM p l = Ok r ->
            StronglySorted Z.lt (map g l) -> StronglySorted Z.lt (map g r).
Proof.
  induction l as [|y t IH]; simpl; intros r H Hs.
  - injection H as <-. constructor.
  - apply bind_Ok in H as (b & Hb & H).
    apply bind_Ok in H as (r' & Hr' & H).
    injection H as <-.
    apply StronglySorted_inv in Hs as [Ht Hy].
    destruct b; [|apply (IH _ Hr' Ht)].
    simpl. constructor; [apply (IH _ Hr' Ht)|].
    rewrite Forall_forall in *. intros z Hz.
    apply in_map_iff in Hz as (x & <- & Hx).
    apply Hy, in_map, (filterM_incl _ _ _ Hr'), Hx.
Qed.

Lemma py_next_least {A : Type} (p : A -> bool) (g : A -> Z) (l : list A)
      (x : A) :
  StronglySorted Z.lt (map g l) -> py_next p l = Ok x ->
  forall y, In y l -> p y = true -> g x <= g y.
Proof.
  induction l as [|z t IH]; simpl; intros Hs H y Hy Hp; [contradiction|].
  apply StronglySorted_inv in Hs as [Ht Hz].
  destruct (p z) eqn:Ez.
  - injection H as <-. destruct Hy as [->|Hy]; [lia|].
    rewrite Forall_forall in Hz. specialize (Hz (g y) (in_map g _ _ Hy)). lia.
  - destruct Hy as [->|Hy]; [congruence|].
    apply (IH Ht H y Hy Hp).
Qed.

Lemma in_generator_Ok {A : Type} (m : result A) (a : A) :
  in_generator m = Ok a -> m = Ok a.
Proof.
  destruct m as [x|e]; simpl; [tauto|].
  destruct (exn_eqb e StopIteration); discriminate.
Qed.

Section Roots.
Context {Effect : Type}.

Lemma search_lowest (idx : Z) (tun : string) (s : @GuitarString Effect)
      (k : string) (floor : Z) (on_s : list Note) (r : Note) :
  String_init idx tun = Ok s ->
  getitem_name s k = Ok on_s ->
  py_next (fun n => floor <=? fret n) on_s = Ok r ->
  lowest_at s k floor r.
Proof.
  intros Hs Hon Hnext. unfold getitem_name in Hon.
  destruct (py_next_Ok _ _ _ Hnext) as [Hin Hge].
  apply Z.leb_le in Hge.
  split; [apply (filterM_incl _ _ _ Hon), Hin|].
  split; [apply (filterM_true _ _ _ Hon _ Hin)|].
  split; [exact Hge|].
  intros n Hn Henh Hfl.
  apply (py_next_least (fun n => floor <=? fret n) fret on_s r).
  - apply (filterM_sorted _ _ _ _ Hon).
    rewrite (String_init_frets_sorted _ _ _ Hs). apply py_range_sorted.
  - exact Hnext.
  - apply (filterM_complete _ _ _ Hon _ Hn Henh).
  - apply Z.leb_le, Hfl.
Qed.

(** X21.  When the search for the roots succeeds, it has found one root
    per anchor string of the form, in the order of the table: on the
    first anchor the lowest note that sounds like the key at or above the
    floor, and on each other anchor the lowest such note at or above the
    fret of the first root. *)
Theorem find_roots_spec (strings : list (@GuitarString Effect))
        (form k : string) (j : Z) (roots : list Note) :
  make_strings = Ok strings ->
  find_roots strings form k j = Ok roots ->
  exists primary rest first others,
    root_forms strings form = Ok (primary :: rest) /\
    roots = first :: others /\
    lowest_at primary k j first /\
    Forall2 (fun s r => lowest_at s k (fret first) r) rest others.
Proof.
  intros Hs H. unfold find_roots in H.
  apply bind_Ok in H as (anchors & Ha & H).
  apply bind_Ok in H as (primary & Hp & H).
  apply bind_Ok in H as (on_primary & Hon & H).
  apply bind_Ok in H as (first & Hfirst & H).
  apply bind_Ok in H as (others & Hothers & H).
  injection H as <-.
  pose proof (make_strings_inits _ Hs) as Hinit.
  pose proof (root_forms_incl _ _ _ Ha) as Hinc.
  rewrite Forall_forall in Hinit, Hinc.
  destruct anchors as [|p rest]; [discriminate Hp|].
  change (py_index (p :: rest) 0) with (Ok p) in Hp. injection Hp as ->.
  exists primary, rest, first, others.
  split; [exact Ha|]. split; [reflexivity|]. split.
  - destruct (Hinit _ (Hinc _ (or_introl eq_refl))) as (idx & tun & Hi).
    apply (search_lowest idx tun primary k j on_primary first Hi Hon Hfirst).
  - simpl in Hothers. apply mapM_Forall2 in Hothers.
    assert (Hall : Forall (fun s : @GuitarString Effect =>
                             exists idx tun, String_init idx tun = Ok s) rest).
    { apply Forall_forall. intros s Hin. apply Hinit, Hinc. right. exact Hin. }
    clear Ha Hon Hfirst Hinc Hinit Hs.
    induction Hothers as [|s r rest' others' Hsr _ IH]; constructor.
    + apply Forall_inv in Hall as (idx & tun & Hi).
      apply in_generator_Ok in Hsr.
      apply bind_Ok in Hsr as (on_s & Hons & Hnext).
      apply (search_lowest idx tun s k (fret first) on_s r Hi Hons Hnext).
    + apply IH. apply Forall_inv_tail in Hall. exact Hall.
Qed.

End Roots.

Lemma find_roots_spec_witness :
  exists (strings : list (@GuitarString unit)) (first second : Note),
    make_strings = Ok strings /\
    find_roots strings "D" "G" 0 = Ok [first; second] /\
    fret first = 5 /\ fret second = 8.
Proof.
  destruct (@make_strings unit) as [strings|e] eqn:Hs;
    [|vm_compute in Hs; discriminate Hs].
  destruct (find_roots strings "D" "G" 0) as [roots|e] eqn:Hr.
  - destruct (find_roots_spec strings "D" "G" 0 roots Hs Hr)
      as (primary & rest & first & others & _ & Hroots & _ & _).
    assert (Hs' := Hs). vm_compute in Hs'. injection Hs' as <-.
    vm_compute in Hr. injection Hr as <-.
    eexists _, _, _. split; [reflexivity|].
    split; [reflexivity|]. split; reflexivity.
  - assert (Hs' := Hs). vm_compute in Hs'. injection Hs' as <-.
    vm_compute in Hr. discriminate Hr.
Defined.

(** ** The notes of a guitar and of a beat *)

Lemma mapM_pure {A B : Type} (f : A -> result B) (g : A -> B) (l : list A) :
  (forall x, In x l -> f x = Ok (g x)) -> mapM f l = Ok (map g l).
Proof.
  induction l as [|x t IH]; simpl; intros H; [reflexivity|].
  rewrite (H x (or_introl eq_refl)), IH; [reflexivity|].
  intros y Hy. apply H. right. exact Hy.
Qed.

Lemma py_enumerate_nth {A : Type} (l : list A) :
  forall (a : Z) (i : nat) (x : A),
    nth_error l i = Some x ->
    nth_error (py_enumerate a l) i = Some (a + Z.of_nat i, x).
Proof.
  induction l as [|y t IH]; intros a i x H; [destruct i; discriminate H|].
  destruct i as [|i]; simpl in *.
  - injection H as <-. rewrite Z.add_0_r. reflexivity.
  - rewrite (IH (a + 1) i x H). f_equal. f_equal. lia.
Qed.

Section GuitarNotes.
Context {Effect : Type}.
Variable hash : string -> Z.

Lemma Guitar_init_strings (tun : string) (g : @Guitar Effect) :
  Guitar_init tun = Ok g ->
  mapM (fun p => @String_init Effect (fst p) (snd p))
       (py_enumerate 1 (rev (chars tun))) = Ok (guitar_strings g).
Proof.
  unfold Guitar_init. intros H.
  apply bind_Ok in H as (ss & Hss & H). injection H as <-. exact Hss.
Qed.

Lemma Guitar_init_inits (tun : string) (g : @Guitar Effect) :
  Guitar_init tun = Ok g ->
  Forall (fun s => exists idx tun', String_init idx tun' = Ok s)
         (guitar_strings g).
Proof.
  intros H. apply Guitar_init_strings in H.
  eapply mapM_incl; [|exact H].
  intros p s Hs. exists (fst p), (snd p). exact Hs.
Qed.

(** X22.  [Guitar.get_notes(names)] for valid note names returns a set:
    no two of its notes are equal; each of them is a note of one of the
    strings with the pitch class of one of the names; and every such note
    of every string is in it. *)
Theorem Guitar_get_notes_spec (tun : string) (g : @Guitar Effect)
        (names : list string) :
  Guitar_init tun = Ok g ->
  Forall (fun q => exists v, notes.note_to_int q = Ok v) names ->
  exists r,
    Guitar_get_notes hash g names = Ok r /\
    NoDup (map (Note_hash hash) r) /\
    (forall n, In n r ->
               exists s q, In s (guitar_strings g) /\ In n (string_notes s) /\
                           In q names /\ same_pitch (name n) q = true) /\
    (forall s n q, In s (guitar_strings g) -> In n (string_notes s) ->
                   In q names -> same_pitch (name n) q = true ->
                   set_mem hash n r = true).
Proof.
  intros Hg Hnames.
  pose proof (Guitar_init_inits _ _ Hg) as Hinit.
  rewrite Forall_forall in Hinit.
  assert (Hper : mapM (fun s => get_notes s names) (guitar_strings g)
                 = Ok (map (fun s => filter
                                       (fun n => existsb (same_pitch (name n))
                                                         names)
                                       (string_notes s))
                           (guitar_strings g))).
  { apply mapM_pure. intros s Hs.
    destruct (Hinit _ Hs) as (idx & tun' & Hi).
    apply (get_notes_filter idx tun' s names Hi Hnames). }
  unfold Guitar_get_notes. rewrite Hper. cbn [bind].
  eexists. split; [reflexivity|]. split; [|split].
  - unfold py_set. apply fold_set_add_NoDup. constructor.
  - intros n Hn. unfold py_set in Hn. apply fold_set_add_incl in Hn.
    simpl in Hn. apply in_concat in Hn as (l & Hl & Hnl).
    apply in_map_iff in Hl as (s & <- & Hs).
    apply filter_In in Hnl as [Hon Hq].
    apply existsb_exists in Hq as (q & Hq & Hsame).
    exists s, q. repeat split; assumption.
  - intros s n q Hs Hn Hq Hsame. rewrite py_set_mem.
    apply set_mem_In. apply in_concat.
    eexists. split; [apply in_map, Hs|].
    apply filter_In. split; [exact Hn|].
    apply existsb_exists. exists q. split; assumption.
Qed.

(** X23.  On a guitar, a played note on string [i] (counted from 1) at a
    fret from 0 to 22 is built without error and equals, by [==], the
    note that string [i] of the guitar holds at that fret, whatever its
    effect; it has the same name. *)
Theorem Beat_note_on_guitar (tun : string) (g : @Guitar Effect)
        (i value : Z) (eff : option Effect) :
  Guitar_init tun = Ok g ->
  1 <= i <= Z.of_nat (List.length (guitar_strings g)) ->
  0 <= value <= 22 ->
  exists n s m,
    Beat_note (guitar_strings g) i value eff = Ok n /\
    py_index (guitar_strings g) (i - 1) = Ok s /\ index s = i /\
    py_index (string_notes s) value = Ok m /\
    name n = name m /\ effect n = eff /\
    Note_eq hash n m = true.
Proof.
  intros Hg Hi Hv.
  destruct (py_index_in (guitar_strings g) (i - 1)) as (s & Hnth & Hs);
    [lia|].
  pose proof (Guitar_init_strings _ _ Hg) as Hss.
  assert (Hlen : List.length (py_enumerate 1 (rev (chars tun)))
                 = List.length (guitar_strings g))
    by (symmetry; apply (mapM_length _ _ _ Hss)).
  destruct (nth_error (rev (chars tun)) (Z.to_nat (i - 1))) as [c|] eqn:Hc.
  2:{ apply nth_error_None in Hc. rewrite py_enumerate_length in Hlen. lia. }
  pose proof (py_enumerate_nth _ 1 _ _ Hc) as Hp.
  destruct (mapM_nth_error _ _ _ _ _ Hss Hp) as (s' & Hinit & Hnth').
  rewrite Hnth in Hnth'. injection Hnth' as <-.
  cbn [fst snd] in Hinit. rewrite Z2Nat.id in Hinit by lia.
  replace (1 + (i - 1)) with i in Hinit by lia.
  pose proof (String_init_fields _ _ _ Hinit) as (Hidx & Htun & _).
  assert (Hk : (Z.to_nat value < FRETS)%nat) by (unfold FRETS; lia).
  destruct (String_init_nth _ _ _ _ Hinit Hk) as (nm & Hnm & Hm).
  rewrite Z2Nat.id in Hnm, Hm by lia.
  destruct (py_index_in (string_notes s) value) as (m & Hm' & Hidxm).
  { rewrite (String_init_length _ _ _ Hinit). unfold FRETS. lia. }
  rewrite Hm in Hm'. injection Hm' as <-.
  exists (mkNote i value nm eff), s, (Note_init i value nm).
  split.
  - unfold Beat_note. rewrite Hs. cbn [bind]. rewrite Htun, Hnm. reflexivity.
  - split; [exact Hs|]. split; [exact Hidx|]. split; [exact Hidxm|].
    split; [reflexivity|]. split; [reflexivity|].
    apply Note_eq_fields; reflexivity.
Qed.

End GuitarNotes.

Lemma Guitar_get_notes_spec_witness :
  exists (g : @Guitar unit) (r : list Note),
    Guitar_init "EADGBE" = Ok g /\
    Guitar_get_notes str_code g ["G"] = Ok r /\
    NoDup (map (Note_hash str_code) r).
Proof.
  destruct (@Guitar_init unit "EADGBE") as [g|e] eqn:Hg;
    [|vm_compute in Hg; discriminate Hg].
  destruct (Guitar_get_notes_spec str_code "EADGBE" g ["G"] Hg)
    as (r & Hr & Hnd & _).
  - repeat constructor. eexists. reflexivity.
  - exists g, r. split; [reflexivity|]. split; assumption.
Defined.

Lemma Beat_note_on_guitar_witness :
  exists (g : @Guitar unit) (n : Note),
    Guitar_init "EADGBE" = Ok g /\
    Beat_note (guitar_strings g) 6 3 (Some tt) = Ok n /\
    effect n = Some tt.
Proof.
  destruct (@Guitar_init unit "EADGBE") as [g|e] eqn:Hg;
    [|vm_compute in Hg; discriminate Hg].
  destruct (Beat_note_on_guitar str_code "EADGBE" g 6 3 (Some tt) Hg)
    as (n & s & m & Hn & _ & _ & _ & _ & He & _).
  - assert (Hg' := Hg). vm_compute in Hg'. injection Hg' as <-. simpl. lia.
  - lia.
  - exists g, n. split; [reflexivity|]. split; assumption.
Defined.

(** ** How an exhausted retry loop ends *)






Section AttemptErrors.
Context {Effect : Type}.









Variable hash : string -> Z.




End AttemptErrors.


(** The three ways in which an exhausted loop ends, for a scale without
    the key: [StopIteration] with the key G and the form D (shown above),
    [RuntimeError] with the form A, and [IndexError] with the key F and
    the form A. *)
Example calculate_form_rootless_F_A :
  @calculate_form_py unit str_code 24 "F" Rootless "A" 0 false
  = Err IndexError.
Proof. vm_compute. reflexivity. Qed.

(** ** Floors below the nut *)

Section NegativeFloor.
Context {Effect : Type}.
Variable hash : string -> Z.

Lemma settled_floor (k : string) (sc : Scale) (form : string)
      (transpose : bool) (j : Z) (fuel : nat) :
  j <= 0 ->
  @rejected Effect hash k sc form 0 = false ->
  @calculate_form Effect hash fuel k sc form j transpose
  = calculate_form hash fuel k sc form 0 transpose.
Proof.
  intros Hj Hrej. destruct fuel as [|fuel]; [reflexivity|].
  pose proof (@attempt_floor Effect k sc form j Hj) as Hatt.
  unfold rejected in Hrej.
  destruct (@attempt Effect k sc form 0) as [[roots nl]|e] eqn:Ha0.
  - apply negb_false_iff in Hrej.
    rewrite (calculate_form_accept hash _ _ _ _ _ _ _ _ Hatt Hrej).
    rewrite (calculate_form_accept hash _ _ _ _ _ _ _ _ Ha0 Hrej).
    reflexivity.
  - rewrite (calculate_form_raise hash _ _ _ _ _ _ _ Hatt).
    rewrite (calculate_form_raise hash _ _ _ _ _ _ _ Ha0).
    reflexivity.
Qed.

Lemma rejected_floor (k : string) (sc : Scale) (form : string)
      (transpose : bool) (m : nat) :
  @rejected Effect hash k sc form 0 = true ->
  forall (j : Z) (fuel : nat),
    j <= 0 -> m = Z.to_nat (- j) ->
    @calculate_form Effect hash fuel k sc form j transpose
    = calculate_form hash (fuel - m) k sc form 0 transpose.
Proof.
  intros Hrej. induction m as [|m IH]; intros j fuel Hj Hm.
  - assert (j = 0) by lia. subst j. rewrite Nat.sub_0_r. reflexivity.
  - destruct fuel as [|fuel]; [reflexivity|].
    pose proof (@attempt_floor Effect k sc form j Hj) as Hatt.
    destruct (rejected_attempt hash k sc form 0 Hrej)
      as (roots & nl & Ha0 & Hc).
    rewrite Ha0 in Hatt.
    rewrite (calculate_form_reject hash _ _ _ _ _ _ _ _ Hatt Hc).
    rewrite (IH (j + 1) fuel) by lia.
    reflexivity.
Qed.

(** X19.  A floor [j] below 0 runs the attempt of the floor 0.  When that
    attempt is accepted or raises, the call returns its outcome at once.
    When it is rejected, every fret below 0 costs one nested call: with
    [frames] nested calls available the call returns what the call from
    the floor 0 returns with [frames - |j|] of them, and so raises
    [RecursionError] when no more than [|j|] are available. *)
Theorem calculate_form_negative_floor (k : string) (sc : Scale)
        (form : string) (transpose : bool) (j : Z) (frames : nat) :
  j <= 0 ->
  (@rejected Effect hash k sc form 0 = false ->
   @calculate_form_py Effect hash frames k sc form j transpose
   = calculate_form_py hash frames k sc form 0 transpose) /\
  (@rejected Effect hash k sc form 0 = true ->
   @calculate_form_py Effect hash frames k sc form j transpose
   = calculate_form_py hash (frames - Z.to_nat (- j)) k sc form 0 transpose
   /\
   ((frames <= Z.to_nat (- j))%nat ->
    @calculate_form_py Effect hash frames k sc form j transpose
    = Err RecursionError)).
Proof.
  intros Hj. split; intros Hrej.
  - unfold calculate_form_py.
    rewrite (settled_floor k sc form transpose j frames Hj Hrej).
    reflexivity.
  - assert (E : @calculate_form Effect hash frames k sc form j transpose
                = calculate_form hash (frames - Z.to_nat (- j)) k sc form 0
                                 transpose)
      by (apply (rejected_floor k sc form transpose (Z.to_nat (- j)) Hrej);
          [exact Hj | reflexivity]).
    split.
    + unfold calculate_form_py. rewrite E. reflexivity.
    + intros Hle. unfold calculate_form_py. rewrite E.
      replace (frames - Z.to_nat (- j))%nat with 0%nat by lia.
      reflexivity.
Qed.

End NegativeFloor.

Lemma calculate_form_negative_floor_witness :
  @calculate_form_py unit str_code 8 "G" Locrian "D" (-2) false
  = calculate_form_py str_code 6 "G" Locrian "D" 0 false /\
  @calculate_form_py unit str_code 2 "G" Locrian "D" (-2) false
  = Err RecursionError.
Proof.
  destruct (@calculate_form_negative_floor unit str_code "G" Locrian "D"
              false (-2) 8) as (_ & H8); [lia|].
  destruct (@calculate_form_negative_floor unit str_code "G" Locrian "D"
              false (-2) 2) as (_ & H2); [lia|].
  split.
  - apply H8. vm_compute. reflexivity.
  - apply H2; [vm_compute; reflexivity | simpl; lia].
Defined.
